(** * Floyd-Steinberg error diffusion: the quantizer and the diffusion engine

    A shallow embedding of [src/error-diffusion.ts].  JavaScript numbers are
    IEEE 754 binary64 values, so the working arithmetic is modelled with
    Rocq's primitive [float]s, which are the same format with the same
    round-to-nearest-even operations.  [undefined] (what an out-of-range
    array read yields) is [None]; it becomes [nan] as soon as arithmetic
    touches it. *)

From Stdlib Require Import ZArith QArith Qabs Qround Qpower Qfield.
From Stdlib Require Import List Lia Floats Uint63.
From stdpp Require Import base list list_numbers sets.

Close Scope Q_scope.
Open Scope Z_scope.

(** ** JavaScript values and the few built-ins the program uses *)

Module JS.

(** [undefined | number] *)
Definition value := option float.

Definition ToNumber (v : value) : float := default nan v.

(** Conversion of a (small) integer literal to a number; exact for
    magnitudes up to [2^53]. *)
Definition of_Z (z : Z) : float :=
  if z <? 0 then (- of_uint63 (Uint63.of_Z (- z)))%float
  else of_uint63 (Uint63.of_Z z).

(** [Math.round]: nearest integer, halves towards +infinity; NaN, the
    infinities and integral values are returned as they are; arguments in
    [[-0.5, -0]] give [-0]. *)
Definition Math_round (x : float) : float :=
  match Prim2SF x with
  | S754_finite s m e =>
      if 0 <=? e then x
      else
        let sm := if s then Z.neg m else Z.pos m in
        let n := Z.shiftr (2 * sm + 2 ^ (- e)) (1 - e) in
        if n =? 0 then (if s then neg_zero else zero) else of_Z n
  | _ => x
  end.

(** [Math.min] and [Math.max] of two arguments: NaN if either is NaN, and
    [-0] counts as smaller than [+0]. *)
Definition Math_min (a b : float) : float :=
  if is_nan a || is_nan b then nan
  else if (a <? b)%float then a
  else if (b <? a)%float then b
  else if get_sign a then a else b.

Definition Math_max (a b : float) : float :=
  if is_nan a || is_nan b then nan
  else if (a <? b)%float then b
  else if (b <? a)%float then a
  else if get_sign a then b else a.

(** [ToUint8], the conversion a [Uint8Array] applies to a stored number:
    NaN, zeros and infinities give 0, anything else is truncated towards
    zero and reduced modulo 256. *)
Definition ToUint8 (x : float) : Z :=
  match Prim2SF x with
  | S754_finite s m e =>
      let t := if 0 <=? e then Z.pos m * 2 ^ e else Z.shiftr (Z.pos m) (- e) in
      (if s then - t else t) mod 256
  | _ => 0
  end.

(** A [Float64Array] is a fixed-length sequence of numbers.  A read outside
    [0 .. length-1] gives [undefined]; a write there is dropped. *)
Definition fa_get (a : list float) (i : Z) : value :=
  if i <? 0 then None else a !! Z.to_nat i.

Definition fa_set (a : list float) (i : Z) (v : float) : list float :=
  if i <? 0 then a else <[Z.to_nat i := v]> a.

(** [a[i] += d] *)
Definition fa_add (a : list float) (i : Z) (d : float) : list float :=
  fa_set a i (ToNumber (fa_get a i) + d)%float.

End JS.

Import JS.

(** ** The level quantizer *)

(** The body of the [for ... of] loop: the candidate is replaced only on a
    strictly smaller distance. *)
Definition findNearestLevel_step (value : JS.value)
    (state : JS.value * float) (level : float) : JS.value * float :=
  let '(nearest, minDistance) := state in
  let distance := abs (ToNumber value - level)%float in
  if (distance <? minDistance)%float
  then (Some level, distance)
  else (nearest, minDistance).

(** [findNearestLevel(value, levels)]; [levels[0]] is [undefined] when the
    array is empty. *)
Definition findNearestLevel (value : JS.value) (levels : list float) : JS.value :=
  let nearest := head levels in
  let minDistance := abs (ToNumber value - ToNumber (head levels))%float in
  fst (foldl (findNearestLevel_step value) (nearest, minDistance) levels).

(** ** The diffusion engine *)

(** The body of the inner loop: one pixel [(x, y)] of the raster scan acting
    on the working buffer [result]. *)
Definition visit (width height : Z) (levels : list float)
    (result : list float) (y x : Z) : list float :=
  let index := y * width + x in
  let oldPixel := fa_get result index in
  let newPixel := findNearestLevel oldPixel levels in
  let result := fa_set result index (ToNumber newPixel) in
  let error := (ToNumber oldPixel - ToNumber newPixel)%float in
  let result :=
    if x + 1 <? width
    then fa_add result (y * width + (x + 1)) (error * (7 / 16))%float
    else result in
  let result :=
    if (x - 1 >=? 0) && (y + 1 <? height)
    then fa_add result ((y + 1) * width + (x - 1)) (error * (3 / 16))%float
    else result in
  let result :=
    if y + 1 <? height
    then fa_add result ((y + 1) * width + x) (error * (5 / 16))%float
    else result in
  let result :=
    if (x + 1 <? width) && (y + 1 <? height)
    then fa_add result ((y + 1) * width + (x + 1)) (error * (1 / 16))%float
    else result in
  result.

(** The two nested [for] loops over the working buffer. *)
Definition scan (width height : Z) (levels : list float)
    (result : list float) : list float :=
  foldl (fun result y =>
           foldl (fun result x => visit width height levels result y x)
                 result (seqZ 0 width))
        result (seqZ 0 height).

(** The arrow function of the final conversion. *)
Definition clampRound (value : float) : float :=
  Math_max 0 (Math_min 255 (Math_round value)).

(** [applyErrorDiffusion(imageData, width, height, levels)].  The
    [Float64Array] constructor copies [imageData], the scan works on the
    copy, and [Uint8Array.from] stores [ToUint8] of each converted cell. *)
Definition applyErrorDiffusion (imageData : list float) (width height : Z)
    (levels : list float) : list Z :=
  let result := imageData in
  let result := scan width height levels result in
  (fun value => ToUint8 (clampRound value)) <$> result.

(** *** How a call ends

    The specification names two errors.  The source contains no [throw]
    statement and uses no operation that can raise (reads out of range give
    [undefined], typed-array writes out of range are dropped), so a call
    of [applyErrorDiffusion] that returns completes normally with the
    returned buffer.

    Whether it returns is up to the two loop counters.  [width] and
    [height] are integers here; a call with a fractional or NaN dimension
    is outside this model.  A counter is a binary64 number: below [2^53]
    the step [i++] is exact, but [2^53 + 1] is not a binary64 value and
    rounds back to [2^53], so a counter never gets past [2^53] and a loop
    whose bound is larger runs for ever.  The loops are therefore given
    [fuel], a bound on the number of loop tests, and [None] says that a
    loop is still running when the fuel is used up.  (A typed array has
    fewer than [2^53] cells, so an index that the exact arithmetic puts at
    [2^53] or beyond is out of range however binary64 rounds it.) *)
Inductive EngineError := EmptyPalette | InvalidDimensions.

Inductive completion (A : Type) :=
  | Normal (a : A)
  | Throw (e : EngineError).
Arguments Normal {A} a.
Arguments Throw {A} e.

(** [i++] on a loop counter. *)
Definition increment (i : Z) : Z := if i <? 2 ^ 53 then i + 1 else i.

(** [for (...; x < width; x++)] from column [x] on, in row [y]. *)
Fixpoint for_x (fuel : nat) (width height : Z) (levels : list float)
    (y x : Z) (result : list float) : option (list float) :=
  match fuel with
  | O => None
  | S fuel =>
      if x <? width
      then for_x fuel width height levels y (increment x)
                 (visit width height levels result y x)
      else Some result
  end.

(** [for (...; y < height; y++)] from row [y] on. *)
Fixpoint for_y (fuel : nat) (width height : Z) (levels : list float)
    (y : Z) (result : list float) : option (list float) :=
  match fuel with
  | O => None
  | S fuel =>
      if y <? height
      then match for_x fuel width height levels y 0 result with
           | Some result => for_y fuel width height levels (increment y) result
           | None => None
           end
      else Some result
  end.

(** A call of [applyErrorDiffusion] with its loops as the program runs
    them. *)
Definition call_applyErrorDiffusion (fuel : nat) (imageData : list float)
    (width height : Z) (levels : list float) : option (completion (list Z)) :=
  let result := imageData in
  match for_y fuel width height levels 0 result with
  | Some result =>
      Some (Normal ((fun value => ToUint8 (clampRound value)) <$> result))
  | None => None
  end.

(** The raster order of the scan, as the list of visited [(y, x)] pairs. *)
Definition raster (width height : Z) : list (Z * Z) :=
  y ← seqZ 0 height; pair y <$> seqZ 0 width.

Definition pixel_index (width : Z) (p : Z * Z) : Z := p.1 * width + p.2.

Definition visit_pixel (width height : Z) (levels : list float)
    (result : list float) (p : Z * Z) : list float :=
  visit width height levels result p.1 p.2.

(** The working buffer after the first [k] pixels of the scan. *)
Definition scan_prefix (width height : Z) (levels : list float)
    (k : nat) (result : list float) : list float :=
  foldl (visit_pixel width height levels) result (take k (raster width height)).

(** * Vocabulary of the properties *)

(** The final conversion of one cell. *)
Definition convert (value : float) : Z := ToUint8 (clampRound value).

(** The distance as the code computes it: [Math.abs(value - level)]. *)
Definition distance (value : JS.value) (level : float) : float :=
  abs (ToNumber value - level)%float.

Definition ascending (levels : list float) : Prop :=
  ∀ (j1 j2 : nat) l1 l2,
    (j1 < j2)%nat → levels !! j1 = Some l1 → levels !! j2 = Some l2 →
    (l1 <? l2)%float = true.

(** [i] is the position of the current candidate among the levels already
    seen: nothing seen is strictly closer, nothing before it is as close. *)
Definition candidate (value : JS.value) (seen : list float) (i : nat)
    (l : float) : Prop :=
  seen !! i = Some l
  ∧ (∀ l', l' ∈ seen → (distance value l' <? distance value l)%float = false)
  ∧ (∀ (j : nat) l', seen !! j = Some l' →
       (distance value l' <=? distance value l)%float = true → (i <= j)%nat).

(** The real number a finite binary64 value stands for. *)
Definition real_value (x : float) : Q :=
  match Prim2SF x with
  | S754_finite s m e => (inject_Z (if s then Z.neg m else Z.pos m) * 2 ^ e)%Q
  | _ => 0%Q
  end.

Definition real_distance (v l : float) : Q :=
  Qabs (real_value v - real_value l).

(** The first [k] cells of the buffer hold palette members. *)
Definition visited_hold_levels (levels : list float) (k : nat)
    (result : list float) : Prop :=
  ∀ j : nat, (j < k)%nat → ∃ l, l ∈ levels ∧ result !! j = Some l.

(** What "a single write per cell" says about a run on [imageData].  A step
    at [(x, y)] changes no cell other than the visited one and its right,
    bottom-left, bottom and bottom-right neighbours, leaves every earlier
    cell alone and leaves a palette member in the cell it visits, so it
    extends "the cells visited so far hold palette members" by one cell;
    along the run that property holds after every step, and a cell keeps
    for good the value it has right after its own step; at the end every
    cell holds a palette member. *)
Definition single_write_scan (imageData : list float) (width height : Z)
    (levels : list float) : Prop :=
  (∀ (result : list float) (y x : Z),
     length result = length imageData →
     0 <= x < width → 0 <= y < height →
     let index := y * width + x in
     let result' := visit width height levels result y x in
     (∀ j : nat,
        Z.of_nat j ≠ index →
        Z.of_nat j ≠ y * width + (x + 1) →
        Z.of_nat j ≠ (y + 1) * width + (x - 1) →
        Z.of_nat j ≠ (y + 1) * width + x →
        Z.of_nat j ≠ (y + 1) * width + (x + 1) →
        result' !! j = result !! j)
     ∧ (∀ j : nat, Z.of_nat j < index → result' !! j = result !! j)
     ∧ (∃ l, l ∈ levels ∧ fa_get result' index = Some l)
     ∧ (visited_hold_levels levels (Z.to_nat index) result →
        visited_hold_levels levels (S (Z.to_nat index)) result'))
  ∧ (∀ k : nat, (k <= length imageData)%nat →
       visited_hold_levels levels k (scan_prefix width height levels k imageData))
  ∧ (∀ j k : nat, (j < k)%nat →
       scan_prefix width height levels k imageData !! j
       = scan_prefix width height levels (S j) imageData !! j)
  ∧ visited_hold_levels levels (length imageData)
      (scan width height levels imageData).

(** What the arrow function returns is NaN or a number between 0 and 255. *)
Definition clamped (c : float) : Prop :=
  is_nan c = true ∨ ((0 <=? c) && (c <=? 255))%float = true.

(** The final conversion as the specification words it: the working value
    rounded to the nearest integer (a half goes up, as [Math.round] has
    it), then clamped to at least 0 and at most 255.  Plus infinity is
    clamped to 255 and minus infinity to 0; a value that is not a number
    has no nearest integer and is stored as 0. *)
Definition nearest_integer (q : Q) : Z := Qfloor (q + (1 # 2)).

Definition clamp_byte (z : Z) : Z := Z.max 0 (Z.min 255 z).

Definition rounded_and_clamped (value : float) : Z :=
  match Prim2SF value with
  | S754_nan => 0
  | S754_infinity s => if s then 0 else 255
  | _ => clamp_byte (nearest_integer (real_value value))
  end.

(** The four products of an error with the weights are exact: as real
    numbers they are the error times 7/16, 3/16, 5/16 and 1/16. *)
Definition products_exact (error : float) : Prop :=
  (real_value (error * (7 / 16)) == real_value error * (7 # 16))%Q
  ∧ (real_value (error * (3 / 16)) == real_value error * (3 # 16))%Q
  ∧ (real_value (error * (5 / 16)) == real_value error * (5 # 16))%Q
  ∧ (real_value (error * (1 / 16)) == real_value error * (1 # 16))%Q.

(** What the visit of an interior pixel does to its four neighbours: each
    receives the product of the error and its weight, as binary64 computes
    it.  The weights add up to 1, and the four products add up to the error
    as real numbers whenever none of them was rounded. *)
Definition interior_deposits (result : list float) (width height : Z)
    (levels : list float) (y x : Z) : Prop :=
  let index := y * width + x in
  let oldPixel := fa_get result index in
  let error := (ToNumber oldPixel - ToNumber (findNearestLevel oldPixel levels))%float in
  let result' := visit width height levels result y x in
  let right := (error * (7 / 16))%float in
  let bottomLeft := (error * (3 / 16))%float in
  let bottom := (error * (5 / 16))%float in
  let bottomRight := (error * (1 / 16))%float in
  fa_get result' (index + 1)
  = Some (ToNumber (fa_get result (index + 1)) + right)%float
  ∧ fa_get result' (index + width - 1)
    = Some (ToNumber (fa_get result (index + width - 1)) + bottomLeft)%float
  ∧ fa_get result' (index + width)
    = Some (ToNumber (fa_get result (index + width)) + bottom)%float
  ∧ fa_get result' (index + width + 1)
    = Some (ToNumber (fa_get result (index + width + 1)) + bottomRight)%float
  ∧ (7 / 16 + 3 / 16 + 5 / 16 + 1 / 16 = 1)%float
  ∧ (products_exact error →
     (real_value right + real_value bottomLeft + real_value bottom
      + real_value bottomRight == real_value error)%Q).

(** ** Vocabulary of the further properties *)

(** The cells a visit of pixel [(x, y)] may change, as [(y, x)] pairs: the
    pixel itself and its right, bottom-left, bottom and bottom-right
    neighbours. *)
Definition touched (y x : Z) (cell : Z * Z) : Prop :=
  cell = (y, x) ∨ cell = (y, x + 1) ∨ cell = (y + 1, x - 1)
  ∨ cell = (y + 1, x) ∨ cell = (y + 1, x + 1).

(** The quantization error computed at step [k] of the scan of
    [imageData]: [oldPixel - newPixel] for the pixel visited then. *)
Definition error_at (width height : Z) (levels imageData : list float)
    (k : nat) : float :=
  let oldPixel := scan_prefix width height levels k imageData !! k in
  (ToNumber oldPixel - ToNumber (findNearestLevel oldPixel levels))%float.

(** The value cell [(x, y)] has gathered when the scan reaches it: the input
    value plus the deposits of the up-left, up, up-right and left
    neighbours that exist, added in the order in which those pixels are
    visited. *)
Definition gathered (width height : Z) (levels imageData : list float)
    (input : float) (y x : Z) : float :=
  let index := y * width + x in
  let error k := error_at width height levels imageData (Z.to_nat k) in
  let value := input in
  let value :=
    if (1 <=? x) && (1 <=? y)
    then (value + error (index - width - 1)%Z * (1 / 16))%float else value in
  let value :=
    if 1 <=? y
    then (value + error (index - width)%Z * (5 / 16))%float else value in
  let value :=
    if (x + 1 <? width) && (1 <=? y)
    then (value + error (index - width + 1)%Z * (3 / 16))%float else value in
  let value :=
    if 1 <=? x
    then (value + error (index - 1)%Z * (7 / 16))%float else value in
  value.

(** Two buffers hold the same values in their first [k] cells. *)
Definition agree_before (k : nat) (r1 r2 : list float) : Prop :=
  ∀ j : nat, (j < k)%nat → r1 !! j = r2 !! j.

(** The palette [main] passes to the engine. *)
Definition main_levels : list Z := [0; 51; 102; 153; 204; 255].

(** The level of an intensity by the bands 0-25, 26-76, 77-127, 128-178,
    179-229, 230-255 between the six levels. *)
Definition band_level (v : Z) : Z :=
  if v <=? 25 then 0
  else if v <=? 76 then 51
  else if v <=? 127 then 102
  else if v <=? 178 then 153
  else if v <=? 229 then 204
  else 255.

(** An integer palette is ascending. *)
Definition ascendingZ (palette : list Z) : Prop :=
  ∀ (j1 j2 : nat) l1 l2,
    (j1 < j2)%nat → palette !! j1 = Some l1 → palette !! j2 = Some l2 →
    l1 < l2.

(** * Properties *)

(** ** Typed-array reads and writes *)

Section TypedArray.
Implicit Types (a : list float) (i : Z) (j : nat) (v d : float).

Lemma fa_set_length a i v : length (fa_set a i v) = length a.
Proof. unfold fa_set. destruct (i <? 0); [done | apply length_insert]. Qed.

Lemma fa_add_length a i d : length (fa_add a i d) = length a.
Proof. apply fa_set_length. Qed.

Lemma fa_get_nat a j : fa_get a (Z.of_nat j) = a !! j.
Proof.
  unfold fa_get. destruct (Z.ltb_spec (Z.of_nat j) 0); [lia |].
  by rewrite Nat2Z.id.
Qed.

Lemma fa_set_lookup_ne a i v j : i ≠ Z.of_nat j → fa_set a i v !! j = a !! j.
Proof.
  intros Hne. unfold fa_set. destruct (Z.ltb_spec i 0); [done |].
  apply list_lookup_insert_ne. lia.
Qed.

Lemma fa_set_lookup_eq a v j :
  (j < length a)%nat → fa_set a (Z.of_nat j) v !! j = Some v.
Proof.
  intros Hj. unfold fa_set. destruct (Z.ltb_spec (Z.of_nat j) 0); [lia |].
  rewrite Nat2Z.id. by apply list_lookup_insert_eq.
Qed.

Lemma fa_add_lookup_ne a i d j : i ≠ Z.of_nat j → fa_add a i d !! j = a !! j.
Proof. apply fa_set_lookup_ne. Qed.

End TypedArray.

(** ** The quantizer returns a member of the palette *)

Lemma findNearestLevel_loop_elem (value : JS.value) (levels : list float) :
  ∀ (seen : list float) nearest minDistance,
    (∀ l, nearest = Some l → l ∈ seen ++ levels) →
    is_Some nearest →
    ∃ l, fst (foldl (findNearestLevel_step value) (nearest, minDistance) levels)
         = Some l
         ∧ l ∈ seen ++ levels.
Proof.
  induction levels as [| level levels IH]; intros seen nearest minDistance Hin [l Hl].
  - exists l. simpl. split; [done | by apply Hin].
  - cbn [foldl findNearestLevel_step].
    destruct (abs (ToNumber value - level) <? minDistance)%float.
    + destruct (IH (seen ++ [level]) (Some level)
                  (abs (ToNumber value - level))%float) as (l' & Hl' & Hin').
      * intros ? [= <-]. rewrite !elem_of_app, list_elem_of_singleton. auto.
      * by eexists.
      * exists l'. split; [done |]. by rewrite <- app_assoc in Hin'.
    + destruct (IH (seen ++ [level]) nearest minDistance) as (l' & Hl' & Hin').
      * intros l0 Hl0. specialize (Hin l0 Hl0). by rewrite <- app_assoc.
      * by eexists.
      * exists l'. split; [done |]. by rewrite <- app_assoc in Hin'.
Qed.

Lemma findNearestLevel_elem (value : JS.value) (levels : list float) :
  levels ≠ [] →
  ∃ l, findNearestLevel value levels = Some l ∧ l ∈ levels.
Proof.
  intros Hne. unfold findNearestLevel.
  destruct levels as [| l0 levels]; [done |].
  apply (findNearestLevel_loop_elem value (l0 :: levels) []).
  - intros l [= <-]. apply list_elem_of_here.
  - by eexists.
Qed.

Lemma findNearestLevel_nil (value : JS.value) : findNearestLevel value [] = None.
Proof. reflexivity. Qed.

(** ** One step of the scan *)

Section Visit.
Variables (width height : Z) (levels : list float).
Implicit Types (result : list float) (x y : Z) (j : nat).

Lemma visit_length result y x :
  length (visit width height levels result y x) = length result.
Proof.
  unfold visit.
  repeat match goal with
         | |- context [if ?b then _ else _] => destruct b
         end;
    rewrite ?fa_add_length, ?fa_set_length; reflexivity.
Qed.

(** Every deposit goes to a cell strictly after the visited one, so the
    cells before it are left as they were. *)
Lemma visit_lookup_before result y x j :
  0 <= x < width →
  Z.of_nat j < y * width + x →
  visit width height levels result y x !! j = result !! j.
Proof.
  intros Hx Hj. unfold visit.
  destruct (Z.ltb_spec (x + 1) width), (Z.ltb_spec (y + 1) height),
    (x - 1 >=? 0) eqn:Hx1; cbn [andb];
    rewrite ?fa_add_lookup_ne, ?fa_set_lookup_ne by lia; reflexivity.
Qed.

(** ... and the visited cell keeps the level the quantizer chose for it. *)
Lemma visit_lookup_at result y x j :
  0 <= x < width →
  Z.of_nat j = y * width + x →
  (j < length result)%nat →
  visit width height levels result y x !! j
  = Some (ToNumber (findNearestLevel (result !! j) levels)).
Proof.
  intros Hx Hj Hlen. unfold visit. rewrite <- Hj, fa_get_nat.
  destruct (Z.ltb_spec (x + 1) width), (Z.ltb_spec (y + 1) height),
    (x - 1 >=? 0) eqn:Hx1; cbn [andb];
    try apply Z.geb_le in Hx1;
    rewrite ?fa_add_lookup_ne by lia;
    by apply fa_set_lookup_eq.
Qed.

(** Only the visited cell and its four neighbours can change. *)
Lemma visit_lookup_elsewhere result y x j :
  Z.of_nat j ≠ y * width + x →
  Z.of_nat j ≠ y * width + (x + 1) →
  Z.of_nat j ≠ (y + 1) * width + (x - 1) →
  Z.of_nat j ≠ (y + 1) * width + x →
  Z.of_nat j ≠ (y + 1) * width + (x + 1) →
  visit width height levels result y x !! j = result !! j.
Proof.
  intros H0 H1 H2 H3 H4. unfold visit.
  repeat match goal with
         | |- context [if ?b then _ else _] => destruct b
         end;
    rewrite ?fa_add_lookup_ne, ?fa_set_lookup_ne by done; reflexivity.
Qed.

(** No deposit leaves the grid: cells from [width * height] on are out of
    reach of every step. *)
Lemma visit_lookup_beyond result y x j :
  0 <= x < width →
  0 <= y < height →
  width * height <= Z.of_nat j →
  visit width height levels result y x !! j = result !! j.
Proof.
  intros Hx Hy Hj. unfold visit.
  assert ((y + 1) * width <= width * height) by nia.
  destruct (Z.ltb_spec (x + 1) width), (Z.ltb_spec (y + 1) height),
    (x - 1 >=? 0) eqn:Hx1; cbn [andb];
    try (assert ((y + 2) * width <= width * height) by nia);
    rewrite ?fa_add_lookup_ne, ?fa_set_lookup_ne by lia; reflexivity.
Qed.

End Visit.

(** ** The raster order *)

Lemma foldl_bind {A B C} (f : A → B → A) (g : C → list B) (l : list C) :
  ∀ a, foldl f a (l ≫= g) = foldl (fun a c => foldl f a (g c)) a l.
Proof.
  induction l as [| c l IH]; intros a; [done |].
  rewrite bind_cons, foldl_app. apply IH.
Qed.

Lemma scan_raster width height levels result :
  scan width height levels result
  = foldl (visit_pixel width height levels) result (raster width height).
Proof.
  unfold scan, raster. rewrite foldl_bind.
  generalize (seqZ 0 height) as ys. intros ys. revert result.
  induction ys as [| y ys IH]; intros result; [done |].
  cbn [foldl]. rewrite foldl_fmap. apply IH.
Qed.

Lemma raster_in_grid width height :
  Forall (fun p => 0 <= p.1 < height ∧ 0 <= p.2 < width) (raster width height).
Proof.
  apply Forall_forall. intros [y x] Hp.
  apply list_elem_of_bind in Hp as (y' & Hx & Hy).
  apply list_elem_of_fmap in Hx as (x' & [= -> ->] & Hx).
  apply elem_of_seqZ in Hx, Hy. simpl. lia.
Qed.

Lemma raster_indices width height :
  0 <= width →
  pixel_index width <$> raster width height = seqZ 0 (width * height).
Proof.
  intros Hw. destruct (Z.le_gt_cases height 0) as [Hh | Hh].
  { unfold raster. rewrite (seqZ_nil 0 height), (seqZ_nil 0 (width * height)) by nia.
    done. }
  rewrite <- (Z2Nat.id height) by lia.
  induction (Z.to_nat height) as [| n IH]; [by rewrite Z.mul_0_r |].
  unfold raster in *. rewrite seqZ_S, bind_app, fmap_app, IH. cbn [mbind list_bind].
  rewrite app_nil_r, <- list_fmap_compose.
  replace (width * Z.of_nat (S n)) with (width * Z.of_nat n + width) by lia.
  rewrite seqZ_app by nia. f_equal.
  replace (0 + width * Z.of_nat n) with (width * Z.of_nat n + 0) by lia.
  rewrite <- (fmap_add_seqZ (width * Z.of_nat n) 0 width).
  apply list_fmap_ext. intros _ x _. unfold pixel_index. simpl. lia.
Qed.

Lemma raster_length width height :
  0 <= width → length (raster width height) = Z.to_nat (width * height).
Proof.
  intros Hw.
  rewrite <- (length_fmap (pixel_index width)), raster_indices, length_seqZ; done.
Qed.

Lemma raster_nil width height :
  width <= 0 ∨ height <= 0 → raster width height = [].
Proof.
  unfold raster. intros [Hw | Hh].
  - rewrite (seqZ_nil 0 width) by done.
    induction (seqZ 0 height) as [| y ys IH]; [done |].
    by rewrite bind_cons, IH.
  - by rewrite (seqZ_nil 0 height).
Qed.

Lemma raster_lookup width height (k : nat) p :
  0 <= width →
  raster width height !! k = Some p →
  pixel_index width p = Z.of_nat k ∧ 0 <= p.1 < height ∧ 0 <= p.2 < width.
Proof.
  intros Hw Hk. split.
  - assert ((pixel_index width <$> raster width height) !! k
            = Some (pixel_index width p)) as Hi
      by (by rewrite list_lookup_fmap, Hk).
    rewrite raster_indices in Hi by done.
    apply lookup_seqZ in Hi. lia.
  - pose proof (raster_in_grid width height) as Hg.
    rewrite Forall_lookup in Hg. exact (Hg k p Hk).
Qed.

(** ** The scan, pixel by pixel *)

Section Scan.
Variables (width height : Z) (levels : list float).
Hypothesis width_nonneg : 0 <= width.
Implicit Types (result : list float) (j k : nat).

Lemma scan_prefix_length k result :
  length (scan_prefix width height levels k result) = length result.
Proof.
  unfold scan_prefix. generalize (take k (raster width height)) as ps.
  intros ps. revert result.
  induction ps as [| p ps IH]; intros result; [done |].
  cbn [foldl]. rewrite IH. apply visit_length.
Qed.

Lemma scan_prefix_all result :
  scan_prefix width height levels (Z.to_nat (width * height)) result
  = scan width height levels result.
Proof.
  unfold scan_prefix. rewrite scan_raster, take_ge; [done |].
  by rewrite raster_length.
Qed.

Lemma scan_prefix_S k p result :
  raster width height !! k = Some p →
  scan_prefix width height levels (S k) result
  = visit_pixel width height levels (scan_prefix width height levels k result) p.
Proof.
  intros Hk. unfold scan_prefix.
  by rewrite (take_S_r _ _ _ Hk), foldl_snoc.
Qed.

Lemma scan_prefix_beyond k result :
  (length (raster width height) <= k)%nat →
  scan_prefix width height levels k result = scan width height levels result.
Proof.
  intros Hk. unfold scan_prefix. by rewrite scan_raster, take_ge.
Qed.

(** Once the scan has passed a cell, no later step changes it. *)
Lemma scan_prefix_frozen j k result :
  (j < k)%nat →
  scan_prefix width height levels k result !! j
  = scan_prefix width height levels (S j) result !! j.
Proof.
  induction k as [| k IH]; [lia |]. intros Hjk.
  destruct (decide (j = k)) as [-> | Hne]; [done |].
  rewrite <- IH by lia.
  destruct (raster width height !! k) as [p |] eqn:Hk.
  - rewrite (scan_prefix_S _ _ _ Hk).
    apply raster_lookup in Hk as (Hi & _ & Hx); [| done].
    unfold visit_pixel, pixel_index in *.
    apply visit_lookup_before; lia.
  - apply lookup_ge_None in Hk.
    by rewrite !scan_prefix_beyond by lia.
Qed.

(** The step that visits cell [j] stores there the level chosen for the
    value the cell held just before. *)
Lemma scan_prefix_visit j result :
  (j < length (raster width height))%nat →
  (j < length result)%nat →
  scan_prefix width height levels (S j) result !! j
  = Some (ToNumber (findNearestLevel
                      (scan_prefix width height levels j result !! j) levels)).
Proof.
  intros Hj Hlen.
  destruct (lookup_lt_is_Some_2 _ _ Hj) as [p Hp].
  rewrite (scan_prefix_S _ _ _ Hp).
  apply raster_lookup in Hp as (Hi & _ & Hx); [| done].
  unfold visit_pixel, pixel_index in *.
  apply visit_lookup_at; [lia | lia |].
  by rewrite scan_prefix_length.
Qed.

(** Every cell of the grid that exists in the buffer ends the scan holding
    what the quantizer returned when the cell was visited. *)
Lemma scan_lookup j result :
  (j < length (raster width height))%nat →
  (j < length result)%nat →
  scan width height levels result !! j
  = Some (ToNumber (findNearestLevel
                      (scan_prefix width height levels j result !! j) levels)).
Proof.
  intros Hj Hlen.
  rewrite <- (scan_prefix_beyond (length (raster width height))) by done.
  rewrite scan_prefix_frozen by done.
  by apply scan_prefix_visit.
Qed.

Lemma scan_length result :
  length (scan width height levels result) = length result.
Proof.
  rewrite <- (scan_prefix_beyond (length (raster width height))) by done.
  apply scan_prefix_length.
Qed.

End Scan.

Lemma scan_lookup_beyond width height levels result (j : nat) :
  width * height <= Z.of_nat j →
  scan width height levels result !! j = result !! j.
Proof.
  intros Hj. rewrite scan_raster.
  pose proof (raster_in_grid width height) as Hg. revert result.
  induction Hg as [| p ps Hp _ IH]; intros result; [done |].
  cbn [foldl]. rewrite IH. unfold visit_pixel.
  apply visit_lookup_beyond; lia.
Qed.

Lemma scan_no_grid width height levels result :
  width <= 0 ∨ height <= 0 → scan width height levels result = result.
Proof. intros Hd. by rewrite scan_raster, raster_nil. Qed.

(** ** The final conversion *)

(** Facts about finitely many numbers are settled by evaluation. *)
Lemma forall_range (P : Z → bool) (a n : Z) :
  forallb P (seqZ a n) = true → ∀ z, a <= z < a + n → P z = true.
Proof.
  intros HP z Hz. rewrite forallb_forall in HP.
  by apply HP, list_elem_of_In, elem_of_seqZ.
Qed.

Lemma forall_byte (P : Z → bool) :
  forallb P (seqZ 0 256) = true → ∀ z, 0 <= z <= 255 → P z = true.
Proof. intros HP z Hz. apply (forall_range P 0 256 HP). lia. Qed.

(** An integer level in [0, 255] goes through rounding, clamping and the
    byte store unchanged. *)
Lemma convert_level z : 0 <= z <= 255 → convert (of_Z z) = z.
Proof.
  intros Hz. apply Z.eqb_eq.
  revert z Hz. apply (forall_byte (fun z => convert (of_Z z) =? z)).
  vm_compute. reflexivity.
Qed.

Lemma convert_nan : convert nan = 0.
Proof. reflexivity. Qed.

Lemma convert_range value : 0 <= convert value <= 255.
Proof.
  unfold convert, ToUint8.
  destruct (Prim2SF (clampRound value)); try lia.
  match goal with |- 0 <= ?t mod 256 <= 255 =>
    pose proof (Z.mod_pos_bound t 256 eq_refl) end.
  lia.
Qed.

(** ** The output buffer *)

Lemma applyErrorDiffusion_length imageData width height levels :
  length (applyErrorDiffusion imageData width height levels) = length imageData.
Proof. unfold applyErrorDiffusion. by rewrite length_fmap, scan_length. Qed.

Lemma applyErrorDiffusion_lookup imageData width height levels (j : nat) :
  0 <= width →
  Z.of_nat j < width * height →
  (j < length imageData)%nat →
  applyErrorDiffusion imageData width height levels !! j
  = Some (convert (ToNumber (findNearestLevel
       (scan_prefix width height levels j imageData !! j) levels))).
Proof.
  intros Hw Hj Hlen. unfold applyErrorDiffusion.
  rewrite list_lookup_fmap, scan_lookup; [done | done | | done].
  rewrite raster_length by done. lia.
Qed.

(** C1: on a buffer of [width * height] cells and a non-empty palette of
    integers in [0, 255], [applyErrorDiffusion] returns a buffer of
    [width * height] cells, each of them a member of the palette. *)
Theorem applyErrorDiffusion_palette_membership
    (imageData : list float) (width height : Z) (palette : list Z) :
  0 <= width → 0 <= height →
  Z.of_nat (length imageData) = width * height →
  palette ≠ [] →
  Forall (fun l => 0 <= l <= 255) palette →
  let output := applyErrorDiffusion imageData width height (of_Z <$> palette) in
  Z.of_nat (length output) = width * height
  ∧ Forall (fun b => b ∈ palette) output.
Proof.
  intros Hw Hh Hlen Hne Hrange output. subst output. split.
  - by rewrite applyErrorDiffusion_length.
  - apply Forall_lookup. intros j b Hb.
    assert (j < length imageData)%nat as Hj.
    { rewrite <- (applyErrorDiffusion_length imageData width height (of_Z <$> palette)).
      by eapply lookup_lt_Some. }
    rewrite applyErrorDiffusion_lookup in Hb by (done || lia).
    injection Hb as <-.
    match goal with |- context [findNearestLevel ?v ?ls] =>
      destruct (findNearestLevel_elem v ls) as (l & -> & Hl) end.
    { by destruct palette. }
    apply list_elem_of_fmap in Hl as (z & -> & Hz). simpl.
    rewrite Forall_forall in Hrange.
    rewrite convert_level by (by apply Hrange). done.
Qed.

Lemma applyErrorDiffusion_palette_membership_witness :
  let output :=
    applyErrorDiffusion (of_Z <$> [12; 200; 97; 251; 140; 33]) 3 2
                        (of_Z <$> [0; 51; 102; 153; 204; 255]) in
  Z.of_nat (length output) = 3 * 2
  ∧ Forall (fun b => b ∈ [0; 51; 102; 153; 204; 255]) output.
Proof.
  apply (applyErrorDiffusion_palette_membership
           (of_Z <$> [12; 200; 97; 251; 140; 33]) 3 2 [0; 51; 102; 153; 204; 255]).
  - lia.
  - lia.
  - reflexivity.
  - discriminate.
  - repeat constructor; lia.
Defined.

(** C6: with a palette of exactly one level [L] in [0, 255] the output is
    [L] in every cell, whatever the input holds. *)
Theorem applyErrorDiffusion_single_level
    (imageData : list float) (width height L : Z) :
  0 <= width → 0 <= height →
  Z.of_nat (length imageData) = width * height →
  0 <= L <= 255 →
  applyErrorDiffusion imageData width height [of_Z L]
  = replicate (Z.to_nat (width * height)) L.
Proof.
  intros Hw Hh Hlen HL. apply list_eq. intros j.
  destruct (decide (j < length imageData)%nat) as [Hj | Hj].
  - rewrite applyErrorDiffusion_lookup by (done || lia).
    rewrite lookup_replicate_2 by lia.
    match goal with |- context [findNearestLevel ?v ?ls] =>
      destruct (findNearestLevel_elem v ls) as (l & -> & Hl) end; [done |].
    apply list_elem_of_singleton in Hl as ->. simpl.
    by rewrite convert_level.
  - rewrite (lookup_ge_None_2 (applyErrorDiffusion _ _ _ _))
      by (rewrite applyErrorDiffusion_length; lia).
    symmetry. apply lookup_replicate_None. lia.
Qed.

Lemma applyErrorDiffusion_single_level_witness :
  applyErrorDiffusion (of_Z <$> [7; 250; 128; 0; 99; 180]) 2 3 [of_Z 128]
  = replicate (Z.to_nat (2 * 3)) 128.
Proof.
  apply (applyErrorDiffusion_single_level (of_Z <$> [7; 250; 128; 0; 99; 180]) 2 3 128).
  - lia.
  - lia.
  - reflexivity.
  - lia.
Defined.

(** ** The loops and their counters *)

Lemma increment_below (i : Z) : i < 2 ^ 53 → increment i = i + 1.
Proof. intros Hi. unfold increment. by destruct (Z.ltb_spec i (2 ^ 53)); [| lia]. Qed.

Lemma increment_bounded (i : Z) : i <= 2 ^ 53 → increment i <= 2 ^ 53.
Proof. intros Hi. unfold increment. destruct (Z.ltb_spec i (2 ^ 53)); lia. Qed.

(** The binary64 fact behind [increment]: adding 1 to [2^53] gives [2^53]
    again. *)
Lemma counter_sticks : (of_Z (2 ^ 53) + 1 = of_Z (2 ^ 53))%float.
Proof. reflexivity. Qed.

Section Loops.

Variables (width height : Z) (levels : list float).

Lemma for_x_returns (fuel : nat) (y x : Z) (result : list float) :
  width <= 2 ^ 53 →
  (Z.to_nat (width - x) < fuel)%nat →
  for_x fuel width height levels y x result
  = Some (foldl (fun result x => visit width height levels result y x)
                result (seqZ x (width - x))).
Proof.
  intros Hw. revert x result.
  induction fuel as [| fuel IH]; intros x result Hfuel; [lia |].
  cbn [for_x]. destruct (Z.ltb_spec x width) as [Hx | Hx].
  - rewrite increment_below by lia. rewrite IH by lia.
    rewrite (seqZ_cons x (width - x)) by lia. cbn [foldl].
    by replace (Z.pred (width - x)) with (width - Z.succ x) by lia.
  - by rewrite seqZ_nil by lia.
Qed.

Lemma for_y_returns (fuel : nat) (y : Z) (result : list float) :
  width <= 2 ^ 53 → height <= 2 ^ 53 →
  (Z.to_nat (height - y) + Z.to_nat width < fuel)%nat →
  for_y fuel width height levels y result
  = Some (foldl (fun result y =>
                   foldl (fun result x => visit width height levels result y x)
                         result (seqZ 0 width))
                result (seqZ y (height - y))).
Proof.
  intros Hw Hh. revert y result.
  induction fuel as [| fuel IH]; intros y result Hfuel; [lia |].
  cbn [for_y]. destruct (Z.ltb_spec y height) as [Hy | Hy].
  - rewrite for_x_returns by (done || lia).
    rewrite increment_below by lia. rewrite IH by lia.
    rewrite (seqZ_cons y (height - y)) by lia. cbn [foldl].
    replace (width - 0) with width by lia.
    by replace (Z.pred (height - y)) with (height - Z.succ y) by lia.
  - by rewrite (seqZ_nil y) by lia.
Qed.

Lemma for_x_never_returns (fuel : nat) (y x : Z) (result : list float) :
  2 ^ 53 < width → x <= 2 ^ 53 →
  for_x fuel width height levels y x result = None.
Proof.
  intros Hw. revert x result.
  induction fuel as [| fuel IH]; intros x result Hx; [done |].
  cbn [for_x]. destruct (Z.ltb_spec x width); [| lia].
  by apply IH, increment_bounded.
Qed.

Lemma for_y_never_returns (fuel : nat) (y : Z) (result : list float) :
  2 ^ 53 < height → y <= 2 ^ 53 →
  for_y fuel width height levels y result = None.
Proof.
  intros Hh. revert y result.
  induction fuel as [| fuel IH]; intros y result Hy; [done |].
  cbn [for_y]. destruct (Z.ltb_spec y height); [| lia].
  destruct (for_x _ _ _ _ _ _ _); [| done].
  by apply IH, increment_bounded.
Qed.

End Loops.

(** With both dimensions at most [2^53] the call returns what the scan with
    exact counters computes, from some amount of fuel on. *)
Lemma call_applyErrorDiffusion_returns
    (imageData : list float) (width height : Z) (levels : list float)
    (fuel : nat) :
  width <= 2 ^ 53 → height <= 2 ^ 53 →
  (Z.to_nat height + Z.to_nat width < fuel)%nat →
  call_applyErrorDiffusion fuel imageData width height levels
  = Some (Normal (applyErrorDiffusion imageData width height levels)).
Proof.
  intros Hw Hh Hfuel. unfold call_applyErrorDiffusion. cbv zeta.
  rewrite for_y_returns by (done || lia).
  by replace (height - 0) with height by lia.
Qed.

(** With a dimension above [2^53] whose loop is entered, the call never
    returns. *)
Lemma call_applyErrorDiffusion_never_returns
    (imageData : list float) (width height : Z) (levels : list float) :
  2 ^ 53 < height ∨ (2 ^ 53 < width ∧ 0 < height) →
  ∀ fuel : nat,
    call_applyErrorDiffusion fuel imageData width height levels = None.
Proof.
  intros Hbig fuel. unfold call_applyErrorDiffusion. cbv zeta.
  destruct Hbig as [Hh | [Hw Hh]].
  - by rewrite for_y_never_returns by (done || lia).
  - destruct fuel as [| fuel]; [done |]. cbn [for_y].
    destruct (Z.ltb_spec 0 height); [| lia].
    by rewrite for_x_never_returns by (done || lia).
Qed.

(** C2, as the specification has it: an empty palette makes the call fail
    with [EmptyPalette].  The code has no such check: on a 2x2 buffer the
    call returns four zeros. *)
Lemma empty_palette_not_rejected :
  call_applyErrorDiffusion 8 (of_Z <$> [60; 3; 4; 200]) 2 2 []
  = Some (Normal [0; 0; 0; 0])
  ∧ call_applyErrorDiffusion 8 (of_Z <$> [60; 3; 4; 200]) 2 2 []
    ≠ Some (Throw EmptyPalette).
Proof. split; [vm_compute; reflexivity | discriminate]. Qed.

(** C2, amended: with an empty palette and integer dimensions of at most
    [2^53] the call does not fail: given enough fuel it returns, normally,
    a buffer of the input's length.  With a negative width or height no
    cell is visited and every cell is only converted; with a width of at
    least 0 every cell below [width * height] is 0 (the quantizer returns
    [undefined], the cell is stored as NaN, and the final conversion turns
    NaN into 0); with valid dimensions that is every cell. *)
Theorem empty_palette_gives_zeros (imageData : list float) (width height : Z) :
  width <= 2 ^ 53 → height <= 2 ^ 53 →
  ∃ output : list Z,
    (∃ enough : nat, ∀ fuel : nat, (enough <= fuel)%nat →
       call_applyErrorDiffusion fuel imageData width height []
       = Some (Normal output))
    ∧ length output = length imageData
    ∧ (width < 0 ∨ height < 0 → output = convert <$> imageData)
    ∧ (0 <= width → ∀ j : nat,
         Z.of_nat j < width * height → (j < length imageData)%nat →
         output !! j = Some 0)
    ∧ (0 <= width → 0 <= height →
       Z.of_nat (length imageData) = width * height →
       output = replicate (length imageData) 0).
Proof.
  intros Hw53 Hh53. exists (applyErrorDiffusion imageData width height []).
  split.
  { exists (S (Z.to_nat height + Z.to_nat width)). intros fuel Hfuel.
    apply call_applyErrorDiffusion_returns; [done | done | lia]. }
  split; [apply applyErrorDiffusion_length |].
  split.
  { intros Hneg. unfold applyErrorDiffusion. by rewrite scan_no_grid by lia. }
  assert (0 <= width → ∀ j : nat,
            Z.of_nat j < width * height → (j < length imageData)%nat →
            applyErrorDiffusion imageData width height [] !! j = Some 0) as Hzero.
  { intros Hw j Hj Hlen. rewrite applyErrorDiffusion_lookup by done.
    rewrite findNearestLevel_nil. cbn [ToNumber default]. by rewrite convert_nan. }
  split; [done |].
  intros Hw Hh Hlen. apply list_eq. intros j.
  destruct (decide (j < length imageData)%nat) as [Hj | Hj].
  - rewrite Hzero, lookup_replicate_2 by (done || lia). done.
  - rewrite (lookup_ge_None_2 (applyErrorDiffusion _ _ _ _))
      by (rewrite applyErrorDiffusion_length; lia).
    symmetry. apply lookup_replicate_None. lia.
Qed.

Lemma empty_palette_gives_zeros_witness :
  let imageData := of_Z <$> [60; 3; 4; 200] in
  ∃ output : list Z,
    (∃ enough : nat, ∀ fuel : nat, (enough <= fuel)%nat →
       call_applyErrorDiffusion fuel imageData 2 2 [] = Some (Normal output))
    ∧ length output = length imageData
    ∧ (2 < 0 ∨ 2 < 0 → output = convert <$> imageData)
    ∧ (0 <= 2 → ∀ j : nat,
         Z.of_nat j < 2 * 2 → (j < length imageData)%nat →
         output !! j = Some 0)
    ∧ (0 <= 2 → 0 <= 2 →
       Z.of_nat (length imageData) = 2 * 2 →
       output = replicate (length imageData) 0).
Proof.
  apply (empty_palette_gives_zeros (of_Z <$> [60; 3; 4; 200]) 2 2); lia.
Defined.

(** C3, as the specification has it: a negative dimension or a buffer whose
    length is not [width * height] makes the call fail with
    [InvalidDimensions].  The code has no such check: with a negative width
    the loops do not run and the input comes back; with a buffer longer or
    shorter than the grid the cells that exist are processed. *)
Lemma invalid_dimensions_not_rejected :
  (call_applyErrorDiffusion 8 (of_Z <$> [60; 3; 4; 200]) (-2) 2
                            (of_Z <$> [0; 255])
   = Some (Normal [60; 3; 4; 200])
   ∧ call_applyErrorDiffusion 8 (of_Z <$> [60; 3; 4; 200]) (-2) 2
                              (of_Z <$> [0; 255])
     ≠ Some (Throw InvalidDimensions))
  ∧ (call_applyErrorDiffusion 8 (of_Z <$> [60; 3; 4; 200]) 1 2
                              (of_Z <$> [0; 255])
     = Some (Normal [0; 0; 4; 200])
     ∧ call_applyErrorDiffusion 8 (of_Z <$> [60; 3; 4; 200]) 1 2
                                (of_Z <$> [0; 255])
       ≠ Some (Throw InvalidDimensions)).
Proof. repeat split; try discriminate; vm_compute; reflexivity. Qed.

(** C3, amended: with integer dimensions of at most [2^53] that are invalid
    (one of them negative, or a buffer whose length is not
    [width * height]) the call does not fail: given enough fuel it
    returns, normally, a buffer of the input's length.  With a negative
    width or height no cell is visited and every cell is only converted;
    otherwise the cells of the grid that exist in the buffer end up holding
    the level the quantizer chose when they were visited, and the cells
    from [width * height] on are only converted. *)
Theorem invalid_dimensions_still_processed
    (imageData : list float) (width height : Z) (levels : list float) :
  width <= 2 ^ 53 → height <= 2 ^ 53 →
  width < 0 ∨ height < 0 ∨ Z.of_nat (length imageData) ≠ width * height →
  ∃ output : list Z,
    (∃ enough : nat, ∀ fuel : nat, (enough <= fuel)%nat →
       call_applyErrorDiffusion fuel imageData width height levels
       = Some (Normal output))
    ∧ length output = length imageData
    ∧ (width < 0 ∨ height < 0 → output = convert <$> imageData)
    ∧ (0 <= width → ∀ j : nat,
         Z.of_nat j < width * height → (j < length imageData)%nat →
         output !! j
         = Some (convert (ToNumber (findNearestLevel
              (scan_prefix width height levels j imageData !! j) levels))))
    ∧ (∀ j : nat, width * height <= Z.of_nat j →
         output !! j = convert <$> imageData !! j).
Proof.
  intros Hw53 Hh53 _.
  exists (applyErrorDiffusion imageData width height levels).
  split.
  { exists (S (Z.to_nat height + Z.to_nat width)). intros fuel Hfuel.
    apply call_applyErrorDiffusion_returns; [done | done | lia]. }
  split; [apply applyErrorDiffusion_length |].
  split; [| split].
  - intros Hneg. unfold applyErrorDiffusion.
    rewrite scan_no_grid by lia. done.
  - intros Hw j Hj Hlen. by apply applyErrorDiffusion_lookup.
  - intros j Hj. unfold applyErrorDiffusion.
    by rewrite list_lookup_fmap, scan_lookup_beyond.
Qed.

Lemma invalid_dimensions_still_processed_witness :
  let imageData := of_Z <$> [60; 3; 4; 200] in
  let levels := of_Z <$> [0; 255] in
  ∃ output : list Z,
    (∃ enough : nat, ∀ fuel : nat, (enough <= fuel)%nat →
       call_applyErrorDiffusion fuel imageData 1 2 levels
       = Some (Normal output))
    ∧ length output = length imageData
    ∧ (1 < 0 ∨ 2 < 0 → output = convert <$> imageData)
    ∧ (0 <= 1 → ∀ j : nat,
         Z.of_nat j < 1 * 2 → (j < length imageData)%nat →
         output !! j
         = Some (convert (ToNumber (findNearestLevel
              (scan_prefix 1 2 levels j imageData !! j) levels))))
    ∧ (∀ j : nat, 1 * 2 <= Z.of_nat j →
         output !! j = convert <$> imageData !! j).
Proof.
  apply (invalid_dimensions_still_processed
           (of_Z <$> [60; 3; 4; 200]) 1 2 (of_Z <$> [0; 255])).
  - lia.
  - lia.
  - right. right. simpl. lia.
Defined.

(** ** Order facts about binary64 comparisons *)

Section SpecOrder.
Implicit Types x y z : spec_float.

Lemma SFcompare_finite_same_sign s m1 e1 m2 e2 :
  SFcompare (S754_finite s m1 e1) (S754_finite s m2 e2)
  = Some (let c := match e1 ?= e2 with
                   | Eq => (m1 ?= m2)%positive
                   | c => c
                   end in if s then CompOpp c else c).
Proof.
  simpl. rewrite Pos.compare_cont_spec. simpl.
  destruct s, (e1 ?= e2), (m1 ?= m2)%positive; reflexivity.
Qed.

Ltac order_cases :=
  unfold SFltb, SFleb, SFeqb;
  repeat match goal with
         | x : spec_float |- _ => destruct x as [[] | [] | | [] ? ?]
         end;
  rewrite ?SFcompare_finite_same_sign; cbn -[Z.compare Pos.compare];
  try (intros; congruence);
  repeat match goal with
         | |- context [?a ?= ?b] => destruct (Z.compare_spec a b)
         | |- context [(?a ?= ?b)%positive] => destruct (Pos.compare_spec a b)
         end;
  cbn; intros; try congruence; try lia.

Lemma SFltb_irrefl x : SFltb x x = false.
Proof. order_cases. Qed.

Lemma SFltb_trans x y z : SFltb x y = true → SFltb y z = true → SFltb x z = true.
Proof. order_cases. Qed.

Lemma SFleb_ltb_trans x y z : SFleb x y = true → SFltb y z = true → SFltb x z = true.
Proof. order_cases. Qed.

Lemma SFltb_leb x y : SFltb x y = true → SFleb x y = true.
Proof. order_cases. Qed.

Lemma SFeqb_leb x y : SFeqb x y = true → SFleb x y = true.
Proof. order_cases. Qed.

Lemma SFleb_total x y :
  SFeqb x x = true → SFeqb y y = true → SFltb x y = false → SFleb y x = true.
Proof. order_cases. Qed.

End SpecOrder.

Section FloatOrder.
Implicit Types x y z : float.
Local Open Scope float_scope.

Lemma ltb_irrefl x : (x <? x) = false.
Proof. rewrite FloatAxioms.ltb_spec. apply SFltb_irrefl. Qed.

Lemma ltb_trans x y z : (x <? y) = true → (y <? z) = true → (x <? z) = true.
Proof. rewrite !FloatAxioms.ltb_spec. apply SFltb_trans. Qed.

Lemma leb_ltb_trans x y z : (x <=? y) = true → (y <? z) = true → (x <? z) = true.
Proof.
  rewrite FloatAxioms.leb_spec, !FloatAxioms.ltb_spec. apply SFleb_ltb_trans.
Qed.

Lemma ltb_leb x y : (x <? y) = true → (x <=? y) = true.
Proof. rewrite FloatAxioms.leb_spec, FloatAxioms.ltb_spec. apply SFltb_leb. Qed.

Lemma eqb_leb x y : (x =? y) = true → (x <=? y) = true.
Proof. rewrite FloatAxioms.leb_spec, FloatAxioms.eqb_spec. apply SFeqb_leb. Qed.

Lemma leb_total x y :
  is_nan x = false → is_nan y = false → (x <? y) = false → (y <=? x) = true.
Proof.
  unfold is_nan.
  rewrite !negb_false_iff, FloatAxioms.leb_spec, FloatAxioms.ltb_spec,
    !FloatAxioms.eqb_spec.
  apply SFleb_total.
Qed.

End FloatOrder.

(** ** The quantizer picks the first member at least computed distance *)

Section Quantizer.
Variable value : JS.value.
Local Open Scope float_scope.

Lemma candidate_keep seen i l level :
  candidate value seen i l →
  (distance value level <? distance value l) = false →
  candidate value (seen ++ [level]) i l.
Proof.
  intros (Hi & Hmin & Hfirst) Hlevel. split; [| split].
  - by apply lookup_app_l_Some.
  - intros l' [Hl' | ->%list_elem_of_singleton]%elem_of_app; auto.
  - intros j l' Hj Hle.
    destruct (decide (j < length seen)%nat) as [Hlt | Hge].
    + rewrite lookup_app_l in Hj by done. eauto.
    + apply lookup_lt_Some in Hi. lia.
Qed.

Lemma candidate_replace seen i l level :
  candidate value seen i l →
  (distance value level <? distance value l) = true →
  candidate value (seen ++ [level]) (length seen) level.
Proof.
  intros (Hi & Hmin & Hfirst) Hlevel. split; [| split].
  - by rewrite lookup_app_r, Nat.sub_diag.
  - intros l' [Hl' | ->%list_elem_of_singleton]%elem_of_app.
    + destruct (distance value l' <? distance value level) eqn:Hlt; [| done].
      by rewrite <- (Hmin l' Hl'), (ltb_trans _ _ _ Hlt Hlevel).
    + apply ltb_irrefl.
  - intros j l' Hj Hle.
    destruct (decide (j < length seen)%nat) as [Hlt | Hge]; [| lia].
    rewrite lookup_app_l in Hj by done.
    pose proof (leb_ltb_trans _ _ _ Hle Hlevel) as Hcontra.
    rewrite (Hmin l') in Hcontra; [done |].
    by eapply list_elem_of_lookup_2.
Qed.

Lemma findNearestLevel_loop_candidate (rest : list float) :
  ∀ seen i l,
    candidate value seen i l →
    ∃ i' l',
      fst (foldl (findNearestLevel_step value) (Some l, distance value l) rest)
      = Some l'
      ∧ candidate value (seen ++ rest) i' l'.
Proof.
  induction rest as [| level rest IH]; intros seen i l Hc.
  - exists i, l. by rewrite app_nil_r.
  - cbn [foldl findNearestLevel_step]. fold (distance value level).
    rewrite (assoc_L (++) seen [level] rest : seen ++ level :: rest = _).
    destruct (distance value level <? distance value l) eqn:Hlt.
    + eapply IH, candidate_replace; eauto.
    + eapply IH, candidate_keep; eauto.
Qed.

Lemma findNearestLevel_candidate (levels : list float) :
  levels ≠ [] →
  ∃ i l, findNearestLevel value levels = Some l ∧ candidate value levels i l.
Proof.
  intros Hne. destruct levels as [| l0 levels]; [done |].
  unfold findNearestLevel.
  cbn [head foldl findNearestLevel_step ToNumber default].
  fold (distance value l0).
  rewrite ltb_irrefl.
  apply (findNearestLevel_loop_candidate levels [l0] 0%nat l0).
  split; [done | split].
  - intros l' ->%list_elem_of_singleton. apply ltb_irrefl.
  - intros j l' _ _. lia.
Qed.

End Quantizer.

(** C4, as the specification has it: the returned member minimises the
    distance to the value.  At [2^62] the six subtractions all round to
    [2^62], no level is strictly closer than the first, and 0 is returned
    although 255 is nearer. *)
Lemma findNearestLevel_not_nearest_real :
  let levels := of_Z <$> [0; 51; 102; 153; 204; 255] in
  findNearestLevel (Some 0x1p62%float) levels = Some (of_Z 0)
  ∧ of_Z 255 ∈ levels
  ∧ (real_distance 0x1p62%float (of_Z 255)
     < real_distance 0x1p62%float (of_Z 0))%Q.
Proof.
  split; [vm_compute; reflexivity | split].
  - vm_compute. repeat constructor.
  - vm_compute. reflexivity.
Qed.

(** C4, amended: on a non-empty ascending palette [findNearestLevel] returns
    a member; no member has a strictly smaller computed distance
    [Math.abs(value - level)]; it is the first member in scan order whose
    computed distance is that small, so any other member that is as close
    is a greater value. *)
Theorem findNearestLevel_least_computed_distance (v : float) (levels : list float) :
  levels ≠ [] →
  ascending levels →
  ∃ (i : nat) (l : float),
    findNearestLevel (Some v) levels = Some l
    ∧ levels !! i = Some l
    ∧ (∀ l', l' ∈ levels →
         (distance (Some v) l' <? distance (Some v) l)%float = false)
    ∧ (∀ (j : nat) l', levels !! j = Some l' →
         (distance (Some v) l' <=? distance (Some v) l)%float = true →
         (i <= j)%nat)
    ∧ (∀ l', l' ∈ levels → l' ≠ l →
         (distance (Some v) l' <=? distance (Some v) l)%float = true →
         (l <? l')%float = true).
Proof.
  intros Hne Hasc.
  destruct (findNearestLevel_candidate (Some v) levels Hne)
    as (i & l & Hres & Hi & Hmin & Hfirst).
  exists i, l. repeat split; try done.
  intros l' [j Hj]%list_elem_of_lookup Hl' Hle.
  pose proof (Hfirst j l' Hj Hle) as Hij.
  apply (Hasc i j); [| done | done].
  destruct (decide (i = j)) as [-> | ?]; [congruence | lia].
Qed.

Lemma findNearestLevel_least_computed_distance_witness :
  ∃ (i : nat) (l : float),
    findNearestLevel (Some 76.5%float) [0; 51; 102; 153]%float = Some l
    ∧ [0; 51; 102; 153]%float !! i = Some l
    ∧ (∀ l', l' ∈ [0; 51; 102; 153]%float →
         (distance (Some 76.5%float) l' <? distance (Some 76.5%float) l)%float = false)
    ∧ (∀ (j : nat) l', [0; 51; 102; 153]%float !! j = Some l' →
         (distance (Some 76.5%float) l' <=? distance (Some 76.5%float) l)%float = true →
         (i <= j)%nat)
    ∧ (∀ l', l' ∈ [0; 51; 102; 153]%float → l' ≠ l →
         (distance (Some 76.5%float) l' <=? distance (Some 76.5%float) l)%float = true →
         (l <? l')%float = true).
Proof.
  apply (findNearestLevel_least_computed_distance 76.5%float [0; 51; 102; 153]%float).
  - discriminate.
  - intros j1 j2 l1 l2 Hlt H1 H2.
    destruct j1 as [| [| [| [| ?]]]], j2 as [| [| [| [| ?]]]];
      simpl in H1, H2; try lia; try discriminate;
      injection H1 as <-; injection H2 as <-; reflexivity.
Defined.

(** ** Integer intensities: the arithmetic is exact *)

Lemma forall_byte2 (P : Z → Z → bool) :
  forallb (fun a => forallb (P a) (seqZ 0 256)) (seqZ 0 256) = true →
  ∀ a b, 0 <= a <= 255 → 0 <= b <= 255 → P a b = true.
Proof.
  intros HP a b Ha Hb.
  apply (forall_byte (P a)); [| done].
  by apply (forall_byte (fun a => forallb (P a) (seqZ 0 256))).
Qed.

Lemma distance_of_Z v l :
  0 <= v <= 255 → 0 <= l <= 255 →
  distance (Some (of_Z v)) (of_Z l) = of_Z (Z.abs (v - l)).
Proof.
  intros Hv Hl. apply Leibniz.eqb_spec. revert v l Hv Hl.
  apply (forall_byte2
           (fun v l => Leibniz.eqb (distance (Some (of_Z v)) (of_Z l))
                                   (of_Z (Z.abs (v - l))))).
  vm_compute. reflexivity.
Qed.

Lemma ltb_of_Z a b :
  0 <= a <= 255 → 0 <= b <= 255 → (of_Z a <? of_Z b)%float = (a <? b).
Proof.
  intros Ha Hb. apply eqb_prop. revert a b Ha Hb.
  apply (forall_byte2 (fun a b => Bool.eqb (of_Z a <? of_Z b)%float (a <? b))).
  vm_compute. reflexivity.
Qed.

(** On integer pixel values and integer levels in [0, 255] the quantizer
    returns a level at least real distance. *)
Lemma findNearestLevel_of_Z (v : Z) (palette : list Z) :
  0 <= v <= 255 →
  palette ≠ [] →
  Forall (fun l => 0 <= l <= 255) palette →
  ∃ l, findNearestLevel (Some (of_Z v)) (of_Z <$> palette) = Some (of_Z l)
       ∧ l ∈ palette
       ∧ ∀ l', l' ∈ palette → Z.abs (v - l) <= Z.abs (v - l').
Proof.
  intros Hv Hne Hrange. rewrite Forall_forall in Hrange.
  destruct (findNearestLevel_candidate (Some (of_Z v)) (of_Z <$> palette))
    as (i & fl & Hres & Hi & Hmin & _).
  { by destruct palette. }
  apply list_lookup_fmap_Some in Hi as (l & -> & Hl).
  apply list_elem_of_lookup_2 in Hl.
  exists l. repeat split; try done.
  intros l' Hl'.
  specialize (Hmin (of_Z l') (list_elem_of_fmap_2 _ _ _ Hl')).
  pose proof (Hrange l Hl). pose proof (Hrange l' Hl').
  rewrite !distance_of_Z, ltb_of_Z in Hmin by lia.
  apply Z.ltb_ge in Hmin. done.
Qed.

(** C8: a 1x1 image with an integer intensity and a non-empty palette of
    integers in [0, 255] gives a one-cell buffer holding a palette member
    at least distance from the input; [60] on the six-level palette gives
    [51]. *)
Theorem applyErrorDiffusion_single_pixel (v : Z) (palette : list Z) :
  0 <= v <= 255 →
  palette ≠ [] →
  Forall (fun l => 0 <= l <= 255) palette →
  (∃ l, applyErrorDiffusion [of_Z v] 1 1 (of_Z <$> palette) = [l]
        ∧ l ∈ palette
        ∧ ∀ l', l' ∈ palette → Z.abs (v - l) <= Z.abs (v - l'))
  ∧ applyErrorDiffusion [of_Z 60] 1 1 (of_Z <$> [0; 51; 102; 153; 204; 255])
    = [51].
Proof.
  intros Hv Hne Hrange. split; [| vm_compute; reflexivity].
  destruct (findNearestLevel_of_Z v palette Hv Hne Hrange) as (l & Hres & Hl & Hmin).
  exists l. repeat split; try done.
  apply list_eq. intros [| j].
  - rewrite applyErrorDiffusion_lookup by (simpl; lia).
    change (scan_prefix 1 1 (of_Z <$> palette) 0 [of_Z v] !! 0%nat)
      with (Some (of_Z v)).
    rewrite Hres. simpl. rewrite convert_level; [done |].
    rewrite Forall_forall in Hrange. auto.
  - rewrite lookup_ge_None_2; [done |].
    rewrite applyErrorDiffusion_length. simpl. lia.
Qed.

Lemma applyErrorDiffusion_single_pixel_witness :
  (∃ l, applyErrorDiffusion [of_Z 200] 1 1 (of_Z <$> [0; 128; 255]) = [l]
        ∧ l ∈ [0; 128; 255]
        ∧ ∀ l', l' ∈ [0; 128; 255] → Z.abs (200 - l) <= Z.abs (200 - l'))
  ∧ applyErrorDiffusion [of_Z 60] 1 1 (of_Z <$> [0; 51; 102; 153; 204; 255])
    = [51].
Proof.
  apply (applyErrorDiffusion_single_pixel 200 [0; 128; 255]).
  - lia.
  - discriminate.
  - repeat constructor; lia.
Defined.

(** C5: the 2x2 buffer of 100s on the palette [0, 255] gives
    [0, 255, 0, 0].  Pixel (0,0) becomes 0 and its error 100 raises pixel
    (1,0) to 143.75, which becomes 255; the negative error of that pixel
    lowers (0,1) and (1,1), and both become 0. *)
Theorem applyErrorDiffusion_two_by_two :
  let imageData := of_Z <$> [100; 100; 100; 100] in
  let levels := of_Z <$> [0; 255] in
  applyErrorDiffusion imageData 2 2 levels = [0; 255; 0; 0]
  ∧ scan_prefix 2 2 levels 1 imageData = [0; 143.75; 131.25; 106.25]%float
  ∧ scan_prefix 2 2 levels 2 imageData
    = [0; 255; 110.390625; 71.484375]%float
  ∧ scan_prefix 2 2 levels 3 imageData
    = [0; 255; 0; 119.7802734375]%float
  ∧ scan_prefix 2 2 levels 4 imageData = [0; 255; 0; 0]%float.
Proof. vm_compute. repeat split; reflexivity. Qed.

(** ** Single write per cell *)

Lemma scan_prefix_visited width height levels imageData (k : nat) :
  0 <= width →
  levels ≠ [] →
  Z.of_nat (length imageData) = width * height →
  (k <= length imageData)%nat →
  visited_hold_levels levels k (scan_prefix width height levels k imageData).
Proof.
  intros Hw Hne Hlen Hk j Hj.
  rewrite scan_prefix_frozen, scan_prefix_visit by (rewrite ?raster_length; lia).
  match goal with |- context [findNearestLevel ?v ?ls] =>
    destruct (findNearestLevel_elem v ls Hne) as (l & -> & Hl) end.
  by exists l.
Qed.

(** C9: on valid dimensions and a non-empty palette the raster scan writes
    each cell once with a palette member, at the step that visits it; every
    deposit of that step lands strictly later in raster order, so visited
    cells are never modified again and all cells hold palette members when
    the scan ends. *)
Theorem raster_scan_single_write
    (imageData : list float) (width height : Z) (levels : list float) :
  0 <= width → 0 <= height →
  Z.of_nat (length imageData) = width * height →
  levels ≠ [] →
  single_write_scan imageData width height levels.
Proof.
  intros Hw Hh Hlen Hne. split; [| split; [| split]].
  - intros result y x Hres Hx Hy index result'.
    assert (0 <= index) as Hindex by (subst index; nia).
    assert (index < Z.of_nat (length result)) as Hin by (subst index; nia).
    assert (∀ j : nat, Z.of_nat j < index → result' !! j = result !! j) as Hbefore.
    { intros j Hj. apply visit_lookup_before; [lia | done]. }
    assert (∃ l, l ∈ levels ∧ fa_get result' index = Some l) as Hat.
    { rewrite <- (Z2Nat.id index), fa_get_nat by done. subst result'.
      rewrite (visit_lookup_at _ _ _ _ _ _ (Z.to_nat index)) by lia.
      match goal with |- context [findNearestLevel ?v ?ls] =>
        destruct (findNearestLevel_elem v ls Hne) as (l & -> & Hl) end.
      by exists l. }
    split; [| split; [| split]]; try done.
    + intros j. apply visit_lookup_elsewhere.
    + intros Hinv j Hj. destruct (decide (j = Z.to_nat index)) as [-> | Hne'].
      * by rewrite <- fa_get_nat, Z2Nat.id.
      * rewrite Hbefore by lia. apply Hinv. lia.
  - intros k Hk. by apply scan_prefix_visited.
  - intros j k Hjk. by apply scan_prefix_frozen.
  - rewrite <- (scan_prefix_all width height levels) by done.
    replace (Z.to_nat (width * height)) with (length imageData) by lia.
    by apply scan_prefix_visited.
Qed.

Lemma raster_scan_single_write_witness :
  single_write_scan (of_Z <$> [12; 200; 97; 251; 140; 33]) 3 2
                    (of_Z <$> [0; 51; 102; 153; 204; 255]).
Proof.
  apply (raster_scan_single_write
           (of_Z <$> [12; 200; 97; 251; 140; 33]) 3 2
           (of_Z <$> [0; 51; 102; 153; 204; 255])).
  - lia.
  - lia.
  - reflexivity.
  - discriminate.
Defined.

(** ** The final conversion clamps *)

Lemma clampRound_clamped value : clamped (clampRound value).
Proof.
  unfold clampRound, clamped. generalize (Math_round value) as r. intros r.
  assert (is_nan r = true ∨ is_nan (Math_min 255 r) = false
                            ∧ (Math_min 255 r <=? 255)%float = true)
    as [Hnan | [Hm Hle]].
  { unfold Math_min. change (is_nan 255) with false. cbn [orb].
    destruct (is_nan r) eqn:Hr; [by left | right].
    destruct (255 <? r)%float eqn:Hgt; [done |].
    change (get_sign 255) with false.
    assert ((r <=? 255)%float = true) by (by apply leb_total).
    by destruct (r <? 255)%float. }
  - left. unfold Math_min. change (is_nan 255) with false. cbn [orb].
    by rewrite Hnan.
  - right. unfold Math_max. change (is_nan 0) with false. cbn [orb].
    rewrite Hm. change (get_sign 0) with false.
    destruct (0 <? Math_min 255 r)%float eqn:Hpos.
    + by rewrite (ltb_leb _ _ Hpos), Hle.
    + by destruct (Math_min 255 r <? 0)%float.
Qed.

(** *** Rounding to the nearest integer and clamping *)

Lemma digits2_pos_bounds (p : positive) :
  2 ^ (Z.pos (digits2_pos p) - 1) <= Z.pos p < 2 ^ Z.pos (digits2_pos p).
Proof.
  induction p as [p IH | p IH |]; cbn [digits2_pos].
  - rewrite Pos2Z.inj_succ.
    replace (Z.succ (Z.pos (digits2_pos p)) - 1)
      with (Z.succ (Z.pos (digits2_pos p) - 1)) by lia.
    rewrite !Z.pow_succ_r by lia. lia.
  - rewrite Pos2Z.inj_succ.
    replace (Z.succ (Z.pos (digits2_pos p)) - 1)
      with (Z.succ (Z.pos (digits2_pos p) - 1)) by lia.
    rewrite !Z.pow_succ_r by lia. lia.
  - simpl. lia.
Qed.

Lemma digits2_pos_iter_xO (p d : positive) :
  digits2_pos (Pos.iter xO p d) = (digits2_pos p + d)%positive.
Proof.
  induction d as [| d IH] using Pos.peano_ind.
  - simpl. lia.
  - rewrite Pos.iter_succ. cbn [digits2_pos]. rewrite IH. lia.
Qed.

Lemma binary_normalize_small (p : positive) :
  let k := Z.pos (digits2_pos p) in
  k <= 53 →
  ∃ mz, binary_normalize prec emax (Z.pos p) 0 false
        = S754_finite false mz (k - 53)
        ∧ Z.pos mz = Z.pos p * 2 ^ (53 - k).
Proof.
  intros k Hk.
  assert (∃ mz, shl_align p 0 (fexp prec emax (Z.pos (digits2_pos p) + 0))
                = (mz, k - 53)
                ∧ digits2_pos mz = 53%positive
                ∧ Z.pos mz = Z.pos p * 2 ^ (53 - k)) as (mz & Hs & Hd & Hv).
  { unfold shl_align, fexp, emin. change prec with 53. change emax with 1024.
    fold k.
    replace (Z.max (k + 0 - 53) (3 - 1024 - 53)) with (k - 53) by lia.
    destruct (k - 53 - 0) as [| q | q] eqn:Hq; [| lia |].
    - exists p. replace (k - 53) with 0 by lia. split; [done |].
      split; [lia |]. replace (53 - k) with 0 by lia. lia.
    - exists (Pos.iter xO p q). split; [done |].
      split; [rewrite digits2_pos_iter_xO; lia |].
      replace (53 - k) with (Z.pos q) by lia.
      change (Pos.iter xO p q) with (shift_pos q p).
      rewrite shift_pos_correct, Z.pow_pos_fold. lia. }
  exists mz. split; [| done].
  unfold binary_normalize, binary_round. rewrite Hs.
  unfold binary_round_aux, shr_fexp, Zdigits2. rewrite Hd.
  unfold fexp, emin. change prec with 53. change emax with 1024.
  replace (Z.max (53 + (k - 53) - 53) (3 - 1024 - 53) - (k - 53)) with 0
    by (pose proof (Pos2Z.is_pos (digits2_pos p)); lia).
  cbn [shr shr_record_of_loc loc_of_shr_record round_nearest_even shr_m Zdigits2].
  rewrite Hd.
  replace (Z.max (53 + (k - 53) - 53) (3 - 1024 - 53) - (k - 53)) with 0
    by (pose proof (Pos2Z.is_pos (digits2_pos p)); lia).
  cbn [shr shr_m].
  destruct (Z.leb_spec (k - 53) (1024 - 53)); [done | lia].
Qed.

Lemma of_uint63_normal (p : positive) :
  Z.pos p < 2 ^ 53 →
  ∃ mz, Prim2SF (of_uint63 (Uint63.of_Z (Z.pos p)))
        = S754_finite false mz (Z.pos (digits2_pos p) - 53)
        ∧ Z.pos mz = Z.pos p * 2 ^ (53 - Z.pos (digits2_pos p)).
Proof.
  intros Hp. rewrite FloatAxioms.of_uint63_spec, Uint63.of_Z_spec.
  rewrite Z.mod_small by (change wB with (2 ^ 63); lia).
  apply binary_normalize_small.
  pose proof (digits2_pos_bounds p) as [Hlo _].
  destruct (Z.le_gt_cases (Z.pos (digits2_pos p)) 53) as [| Hgt]; [done |].
  assert (2 ^ 53 <= 2 ^ (Z.pos (digits2_pos p) - 1))
    by (apply Z.pow_le_mono_r; lia).
  lia.
Qed.


Lemma of_Z_positive (n : Z) :
  0 < n < 2 ^ 53 →
  ∃ m e, Prim2SF (of_Z n) = S754_finite false m e ∧ (256 <= n → -45 < e).
Proof.
  intros Hn. unfold of_Z. destruct (Z.ltb_spec n 0); [lia |].
  destruct n as [| p | p]; try lia.
  destruct (of_uint63_normal p) as (mz & Hm & Hv); [lia |].
  exists mz, (Z.pos (digits2_pos p) - 53). split; [done |].
  intros Hbig. pose proof (digits2_pos_bounds p) as [_ Hhi].
  destruct (Z.le_gt_cases (Z.pos (digits2_pos p)) 8) as [Hle | ]; [| lia].
  assert (2 ^ Z.pos (digits2_pos p) <= 2 ^ 8)
    by (apply Z.pow_le_mono_r; lia).
  lia.
Qed.

Lemma of_Z_negative (n : Z) :
  - 2 ^ 53 < n < 0 → ∃ m e, Prim2SF (of_Z n) = S754_finite true m e.
Proof.
  intros Hn. unfold of_Z. destruct (Z.ltb_spec n 0); [| lia].
  destruct n as [| p | p]; try lia.
  destruct (of_uint63_normal p) as (mz & Hm & Hv); [lia |].
  exists mz, (Z.pos (digits2_pos p) - 53).
  rewrite FloatAxioms.opp_spec. change (- Z.neg p) with (Z.pos p). by rewrite Hm.
Qed.

Lemma is_nan_finite (r : float) s m e :
  Prim2SF r = S754_finite s m e → is_nan r = false.
Proof.
  intros Hr. unfold is_nan. rewrite FloatAxioms.eqb_spec, Hr.
  unfold SFeqb. rewrite SFcompare_finite_same_sign.
  rewrite Z.compare_refl, Pos.compare_refl. by destruct s.
Qed.

Lemma clamp_above (r : float) m e :
  Prim2SF r = S754_finite false m e → -45 < e →
  ToUint8 (Math_max 0 (Math_min 255 r)) = 255.
Proof.
  intros Hr He. unfold Math_min.
  rewrite (is_nan_finite r _ _ _ Hr). change (is_nan 255) with false.
  cbn [orb].
  assert ((255 <? r)%float = true) as ->; [| reflexivity].
  rewrite FloatAxioms.ltb_spec, Hr.
  replace (Prim2SF 255) with (S754_finite false 8972014882652160 (-45))
    by (vm_compute; reflexivity).
  unfold SFltb. rewrite SFcompare_finite_same_sign.
  by replace (-45 ?= e) with Lt by (symmetry; apply Z.compare_lt_iff; lia).
Qed.

Lemma clamp_below (r : float) m e :
  Prim2SF r = S754_finite true m e →
  ToUint8 (Math_max 0 (Math_min 255 r)) = 0.
Proof.
  intros Hr. unfold Math_min.
  rewrite (is_nan_finite r _ _ _ Hr). change (is_nan 255) with false.
  cbn [orb].
  assert ((255 <? r)%float = false) as ->.
  { rewrite FloatAxioms.ltb_spec, Hr. reflexivity. }
  assert ((r <? 255)%float = true) as ->.
  { rewrite FloatAxioms.ltb_spec, Hr. reflexivity. }
  unfold Math_max.
  rewrite (is_nan_finite r _ _ _ Hr). change (is_nan 0) with false.
  cbn [orb].
  assert ((0 <? r)%float = false) as ->.
  { rewrite FloatAxioms.ltb_spec, Hr. reflexivity. }
  assert ((r <? 0)%float = true) as ->.
  { rewrite FloatAxioms.ltb_spec, Hr. reflexivity. }
  reflexivity.
Qed.

Lemma clamp_of_byte (n : Z) :
  0 <= n <= 255 → ToUint8 (Math_max 0 (Math_min 255 (of_Z n))) = n.
Proof.
  intros Hn. apply Z.eqb_eq. revert n Hn.
  apply (forall_byte
           (fun n => ToUint8 (Math_max 0 (Math_min 255 (of_Z n))) =? n)).
  vm_compute. reflexivity.
Qed.

Lemma nearest_integer_integer (z : Z) : nearest_integer (inject_Z z) = z.
Proof.
  unfold nearest_integer, Qfloor, Qplus, inject_Z. cbn [Qnum Qden].
  replace (z * 2 + 1 * 1) with (1 + z * 2) by lia.
  rewrite Z.div_add by lia. reflexivity.
Qed.

Lemma nearest_integer_scaled (sm e : Z) :
  nearest_integer (inject_Z sm * 2 ^ e)
  = if 0 <=? e then sm * 2 ^ e
    else (2 * sm + 2 ^ (- e)) / 2 ^ (1 - e).
Proof.
  destruct (Z.leb_spec 0 e) as [He | He].
  - rewrite <- nearest_integer_integer. unfold nearest_integer.
    apply Qfloor_comp. rewrite inject_Z_mult.
    by rewrite (Zpower_Qpower 2 e He).
  - unfold nearest_integer. rewrite Zdiv_Qdiv. apply Qfloor_comp.
    replace (1 - e) with (Z.succ (- e)) by lia.
    rewrite Z.pow_succ_r by lia.
    rewrite inject_Z_plus, !inject_Z_mult.
    rewrite (Zpower_Qpower 2 (- e)) by lia.
    rewrite Qpower_opp.
    assert (~ inject_Z 2 ^ e == 0)%Q as Hne.
    { apply Qpower_not_0. discriminate. }
    change (inject_Z 2) with 2%Q in *. field. exact Hne.
Qed.

Lemma valid_finite_mantissa s m e :
  valid_binary (S754_finite s m e) = true →
  Z.pos m < 2 ^ 53 ∧ (0 <= e → 2 ^ 52 <= Z.pos m).
Proof.
  unfold valid_binary, bounded, canonical_mantissa, fexp, emin.
  change prec with 53. change emax with 1024.
  intros [Hc _]%andb_prop. apply Z.eqb_eq in Hc.
  pose proof (digits2_pos_bounds m) as [Hlo Hhi].
  split.
  - assert (2 ^ Z.pos (digits2_pos m) <= 2 ^ 53)
      by (apply Z.pow_le_mono_r; lia).
    lia.
  - intros He. replace (Z.pos (digits2_pos m)) with 53 in Hlo by lia.
    exact Hlo.
Qed.

Lemma round_half_up_bounds (sm e : Z) :
  - 2 ^ 53 < sm < 2 ^ 53 → e < 0 →
  - 2 ^ 53 < (2 * sm + 2 ^ (- e)) / 2 ^ (1 - e) < 2 ^ 53.
Proof.
  intros Hsm He.
  replace (1 - e) with (Z.succ (- e)) by lia.
  rewrite Z.pow_succ_r by lia.
  assert (2 <= 2 ^ (- e)) as Ht.
  { change 2 with (2 ^ 1) at 1. apply Z.pow_le_mono_r; lia. }
  generalize dependent (2 ^ (- e)). intros t Ht. split.
  - apply Z.lt_le_trans with (- 2 ^ 53 + 1); [lia |].
    apply Z.div_le_lower_bound; [lia | nia].
  - apply Z.div_lt_upper_bound; [lia | nia].
Qed.

Lemma convert_rounded_and_clamped (value : float) :
  convert value = rounded_and_clamped value.
Proof.
  pose proof (Prim2SF_valid value) as Hvalid.
  pose proof (SF2Prim_Prim2SF value) as Hvalue.
  destruct (Prim2SF value) as [s | s | | s m e] eqn:E.
  - rewrite <- Hvalue. destruct s; vm_compute; reflexivity.
  - rewrite <- Hvalue. destruct s; vm_compute; reflexivity.
  - rewrite <- Hvalue. vm_compute; reflexivity.
  - clear Hvalue. apply valid_finite_mantissa in Hvalid as [Hm Hnormal].
    unfold rounded_and_clamped, real_value, convert, clampRound, Math_round.
    rewrite E. rewrite nearest_integer_scaled.
    set (sm := if s then Z.neg m else Z.pos m).
    assert (- 2 ^ 53 < sm < 2 ^ 53) as Hsm by (subst sm; destruct s; lia).
    destruct (Z.leb_spec 0 e) as [He | He].
    + specialize (Hnormal He).
      assert (1 <= 2 ^ e) by (apply Z.lt_pred_le, Z.pow_pos_nonneg; lia).
      destruct s.
      * rewrite (clamp_below value m e E). unfold clamp_byte. subst sm. nia.
      * rewrite (clamp_above value m e E) by lia.
        unfold clamp_byte. subst sm. nia.
    + rewrite Z.shiftr_div_pow2 by lia.
      pose proof (round_half_up_bounds sm e Hsm He) as Hn.
      set (n := (2 * sm + 2 ^ (- e)) / 2 ^ (1 - e)) in *.
      destruct (Z.eqb_spec n 0) as [-> | Hn0].
      { by destruct s. }
      destruct (Z.lt_ge_cases n 0) as [Hneg | Hpos].
      * destruct (of_Z_negative n) as (m' & e' & Hof); [lia |].
        rewrite (clamp_below _ _ _ Hof). unfold clamp_byte. lia.
      * destruct (Z.le_gt_cases n 255) as [Hsmall | Hbig].
        { rewrite clamp_of_byte by lia. unfold clamp_byte. lia. }
        destruct (of_Z_positive n) as (m' & e' & Hof & He'); [lia |].
        rewrite (clamp_above _ _ _ Hof) by (apply He'; lia).
        unfold clamp_byte. lia.
Qed.

(** [nearest_integer] does give a nearest integer. *)
Lemma nearest_integer_nearest (q : Q) :
  (Qabs (q - inject_Z (nearest_integer q)) <= 1 # 2)%Q.
Proof.
  unfold nearest_integer.
  pose proof (Qfloor_le (q + (1 # 2))) as Hlo.
  pose proof (Qlt_floor (q + (1 # 2))) as Hhi.
  rewrite inject_Z_plus in Hhi.
  set (n := inject_Z (Qfloor (q + (1 # 2)))) in *.
  change (inject_Z 1) with 1%Q in Hhi.
  apply Qlt_le_weak in Hhi.
  apply Qle_minus_iff in Hlo. apply Qle_minus_iff in Hhi.
  apply Qabs_Qle_condition. split; apply Qle_minus_iff.
  - assert (q - n + - - (1 # 2) == q + (1 # 2) + - n)%Q as -> by ring.
    exact Hlo.
  - assert ((1 # 2) + - (q - n) == n + 1 + - (q + (1 # 2)))%Q as -> by ring.
    exact Hhi.
Qed.

(** C10: whatever the input, the dimensions and the palette, every cell of
    the returned buffer is an integer in [0, 255]: it is the working value
    of that cell rounded to the nearest integer and clamped to at least 0
    and at most 255 (so a level of 300 is stored as 255 and a level of -20
    as 0), the number the arrow function returns lies between 0 and 255,
    and the byte store keeps it as it is. *)
Theorem applyErrorDiffusion_byte_range
    (imageData : list float) (width height : Z) (levels : list float) :
  Forall (fun b => 0 <= b <= 255)
         (applyErrorDiffusion imageData width height levels)
  ∧ Forall2 (fun value b => b = ToUint8 (clampRound value)
                            ∧ clamped (clampRound value)
                            ∧ b = rounded_and_clamped value)
            (scan width height levels imageData)
            (applyErrorDiffusion imageData width height levels).
Proof.
  unfold applyErrorDiffusion. split.
  - apply Forall_fmap, Forall_forall. intros value _. apply convert_range.
  - apply Forall2_fmap_r, Forall_Forall2_diag, Forall_forall.
    intros value _. split; [done |]. split; [apply clampRound_clamped |].
    apply convert_rounded_and_clamped.
Qed.

(** Levels outside [0, 255] are stored as 0 or 255. *)
Example applyErrorDiffusion_clamps_levels :
  applyErrorDiffusion (of_Z <$> [10; 240; 100; 30]) 2 2 (of_Z <$> [-20; 300])
  = [0; 255; 0; 0].
Proof. vm_compute. reflexivity. Qed.

(** ** The four deposits of an interior pixel *)

Section TypedArrayZ.
Implicit Types (a : list float) (i j : Z) (v d : float).

Lemma fa_get_set_ne a i j v : i ≠ j → fa_get (fa_set a i v) j = fa_get a j.
Proof.
  intros Hne. unfold fa_get. destruct (Z.ltb_spec j 0); [done |].
  apply fa_set_lookup_ne. lia.
Qed.

Lemma fa_get_add_ne a i j d : i ≠ j → fa_get (fa_add a i d) j = fa_get a j.
Proof. apply fa_get_set_ne. Qed.

Lemma fa_get_add_eq a i d :
  0 <= i < Z.of_nat (length a) →
  fa_get (fa_add a i d) i = Some (ToNumber (fa_get a i) + d)%float.
Proof.
  intros Hi. unfold fa_add. generalize (ToNumber (fa_get a i) + d)%float as v.
  intros v. rewrite <- (Z2Nat.id i) by lia.
  rewrite fa_get_nat. apply fa_set_lookup_eq. lia.
Qed.

End TypedArrayZ.

(** C7, as the specification has it: the four fractions add up to exactly
    the error.  In the 14x2 image of 100s on the palette [0, 255], pixel
    (12, 0) is interior and its error has a 53-bit significand; three of
    the four products are rounded, and their sum misses the error by
    [3 * 2^-50]. *)
Lemma weight_conservation_not_exact :
  let imageData := of_Z <$> replicate 28 100 in
  let levels := of_Z <$> [0; 255] in
  let result := scan_prefix 14 2 levels 12 imageData in
  let oldPixel := fa_get result (0 * 14 + 12) in
  let error := (ToNumber oldPixel - ToNumber (findNearestLevel oldPixel levels))%float in
  Prim2SF error = S754_finite false 8761414468142725 (-46)
  ∧ Prim2SF (error * (7 / 16)) = S754_finite false 7666237659624884 (-47)
  ∧ Prim2SF (error * (3 / 16)) = S754_finite false 6571060851107044 (-48)
  ∧ Prim2SF (error * (5 / 16)) = S754_finite false 5475884042589203 (-47)
  ∧ Prim2SF (error * (1 / 16)) = S754_finite false 8761414468142725 (-50)
  ∧ ¬ (real_value (error * (7 / 16)) + real_value (error * (3 / 16))
       + real_value (error * (5 / 16)) + real_value (error * (1 / 16))
       == real_value error)%Q
  ∧ (error * (7 / 16) + error * (3 / 16) + error * (5 / 16) + error * (1 / 16))%float
    ≠ error.
Proof.
  vm_compute. repeat split; try reflexivity; discriminate.
Qed.

(** C7, amended: an interior pixel adds to its right, bottom-left, bottom and
    bottom-right neighbours the binary64 products of its error with 7/16,
    3/16, 5/16 and 1/16; the weights add up to exactly 1, and the four
    products add up to exactly the error whenever they are computed without
    rounding. *)
Theorem interior_pixel_deposits
    (result : list float) (width height : Z) (levels : list float) (y x : Z) :
  Z.of_nat (length result) = width * height →
  1 <= x → x + 1 < width →
  0 <= y → y + 1 < height →
  interior_deposits result width height levels y x.
Proof.
  intros Hlen Hx1 Hx2 Hy1 Hy2. unfold interior_deposits. cbv zeta.
  assert ((y + 2) * width <= width * height) as Hrows by nia.
  assert (0 <= y * width) as Hrow by nia.
  unfold visit.
  destruct (Z.ltb_spec (x + 1) width); [| lia].
  destruct (Z.ltb_spec (y + 1) height); [| lia].
  replace (x - 1 >=? 0) with true by (symmetry; apply Z.geb_le; lia).
  cbn [andb].
  replace (y * width + x + 1) with (y * width + (x + 1)) by lia.
  replace (y * width + x + width - 1) with ((y + 1) * width + (x - 1)) by lia.
  replace (y * width + x + width + 1) with ((y + 1) * width + (x + 1)) by lia.
  replace (y * width + x + width) with ((y + 1) * width + x) by lia.
  split; [| split; [| split; [| split; [| split]]]].
  - rewrite !fa_get_add_ne by lia.
    rewrite fa_get_add_eq by (rewrite fa_set_length; lia).
    by rewrite fa_get_set_ne by lia.
  - rewrite !fa_get_add_ne by lia.
    rewrite fa_get_add_eq by (rewrite fa_add_length, fa_set_length; lia).
    by rewrite fa_get_add_ne, fa_get_set_ne by lia.
  - rewrite !fa_get_add_ne by lia.
    rewrite fa_get_add_eq by (rewrite !fa_add_length, fa_set_length; lia).
    by rewrite !fa_get_add_ne, fa_get_set_ne by lia.
  - rewrite fa_get_add_eq by (rewrite !fa_add_length, fa_set_length; lia).
    by rewrite !fa_get_add_ne, fa_get_set_ne by lia.
  - reflexivity.
  - intros (-> & -> & -> & ->). ring.
Qed.

Lemma interior_pixel_deposits_witness :
  interior_deposits (of_Z <$> [12; 200; 97; 251; 140; 33]) 3 2
                    (of_Z <$> [0; 51; 102; 153; 204; 255]) 0 1.
Proof.
  apply (interior_pixel_deposits
           (of_Z <$> [12; 200; 97; 251; 140; 33]) 3 2
           (of_Z <$> [0; 51; 102; 153; 204; 255]) 0 1).
  - reflexivity.
  - lia.
  - lia.
  - lia.
  - lia.
Defined.

(** The products are exact for every error that is a multiple of 1/16 of
    magnitude up to 64, which covers every error the six-level palette
    leaves at the first two pixels of a row of integer intensities. *)
Lemma products_exact_sixteenths (n : Z) :
  -1024 <= n <= 1024 → products_exact (of_Z n * (1 / 16))%float.
Proof.
  intros Hn.
  pose (check (w : float) (q : Q) (n : Z) :=
          let error := (of_Z n * (1 / 16))%float in
          Qeq_bool (real_value (error * w)) (real_value error * q)).
  assert (∀ w q, forallb (check w q) (seqZ (-1024) 2049) = true →
                 (real_value (of_Z n * (1 / 16) * w)
                  == real_value (of_Z n * (1 / 16)) * q)%Q)
    as Hcheck.
  { intros w q Hall. apply Qeq_bool_iff.
    apply (forall_range (check w q) (-1024) 2049 Hall). lia. }
  repeat split; apply Hcheck; vm_compute; reflexivity.
Qed.

(** * Further properties of the engine *)

(** ** One visit is local *)

Lemma cell_index_inj (width y1 x1 y2 x2 : Z) :
  0 <= x1 < width → 0 <= x2 < width →
  y1 * width + x1 = y2 * width + x2 → y1 = y2 ∧ x1 = x2.
Proof.
  intros H1 H2 Heq.
  assert (y1 = y2) as -> by nia. split; [done | lia].
Qed.

Lemma visit_untouched width height levels result (y x y' x' : Z) :
  0 <= x < width → 0 <= x' < width →
  ¬ touched y x (y', x') →
  fa_get (visit width height levels result y x) (y' * width + x')
  = fa_get result (y' * width + x').
Proof.
  intros Hx Hx' Hno. unfold touched in Hno.
  assert (∀ ya xa, 0 <= xa < width → (y', x') ≠ (ya, xa) →
                   ya * width + xa ≠ y' * width + x') as Hne.
  { intros ya xa Hxa Hneq Heq.
    apply cell_index_inj in Heq as [-> ->]; [done | lia | lia]. }
  unfold visit.
  destruct (Z.ltb_spec (x + 1) width), (Z.ltb_spec (y + 1) height),
    (Z.geb_spec (x - 1) 0); cbn [andb];
    rewrite ?fa_get_add_ne, ?fa_get_set_ne by (apply Hne; [lia | tauto]);
    reflexivity.
Qed.

(** ** What one visit adds to each neighbour *)

Section Deposits.
Variables (width height : Z) (levels : list float).
Implicit Types (result : list float) (x y : Z).

(** The error of the visit of [(x, y)] on [result]. *)
Let error_of result y x : float :=
  (ToNumber (fa_get result (y * width + x))
   - ToNumber (findNearestLevel (fa_get result (y * width + x)) levels))%float.

Lemma visit_deposit_right result y x :
  0 <= x → x + 1 < width → 0 <= y →
  y * width + (x + 1) < Z.of_nat (length result) →
  fa_get (visit width height levels result y x) (y * width + (x + 1))
  = Some (ToNumber (fa_get result (y * width + (x + 1)))
          + error_of result y x * (7 / 16))%float.
Proof.
  intros Hx0 Hx1 Hy Hin. assert (0 <= y * width) by nia.
  unfold visit, error_of.
  destruct (Z.ltb_spec (x + 1) width); [| lia].
  destruct (Z.ltb_spec (y + 1) height), (Z.geb_spec (x - 1) 0); cbn [andb];
    rewrite ?fa_get_add_ne by lia;
    rewrite fa_get_add_eq by (rewrite ?fa_add_length, fa_set_length; lia);
    by rewrite fa_get_set_ne by lia.
Qed.

Lemma visit_deposit_bottom_left result y x :
  1 <= x < width → 0 <= y → y + 1 < height →
  (y + 1) * width + (x - 1) < Z.of_nat (length result) →
  fa_get (visit width height levels result y x) ((y + 1) * width + (x - 1))
  = Some (ToNumber (fa_get result ((y + 1) * width + (x - 1)))
          + error_of result y x * (3 / 16))%float.
Proof.
  intros Hx Hy0 Hy1 Hin. assert (0 <= y * width) by nia.
  unfold visit, error_of.
  destruct (Z.ltb_spec (y + 1) height); [| lia].
  destruct (Z.geb_spec (x - 1) 0); [| lia].
  destruct (Z.ltb_spec (x + 1) width); cbn [andb];
    rewrite ?fa_get_add_ne by lia;
    rewrite fa_get_add_eq by (rewrite ?fa_add_length, fa_set_length; lia);
    by rewrite ?fa_get_add_ne, fa_get_set_ne by lia.
Qed.

Lemma visit_deposit_bottom result y x :
  0 <= x < width → 0 <= y → y + 1 < height →
  (y + 1) * width + x < Z.of_nat (length result) →
  fa_get (visit width height levels result y x) ((y + 1) * width + x)
  = Some (ToNumber (fa_get result ((y + 1) * width + x))
          + error_of result y x * (5 / 16))%float.
Proof.
  intros Hx Hy0 Hy1 Hin. assert (0 <= y * width) by nia.
  unfold visit, error_of.
  destruct (Z.ltb_spec (y + 1) height); [| lia].
  destruct (Z.ltb_spec (x + 1) width), (Z.geb_spec (x - 1) 0); cbn [andb];
    rewrite ?fa_get_add_ne by lia;
    rewrite fa_get_add_eq by (rewrite ?fa_add_length, fa_set_length; lia);
    by rewrite ?fa_get_add_ne, fa_get_set_ne by lia.
Qed.

Lemma visit_deposit_bottom_right result y x :
  0 <= x → x + 1 < width → 0 <= y → y + 1 < height →
  (y + 1) * width + (x + 1) < Z.of_nat (length result) →
  fa_get (visit width height levels result y x) ((y + 1) * width + (x + 1))
  = Some (ToNumber (fa_get result ((y + 1) * width + (x + 1)))
          + error_of result y x * (1 / 16))%float.
Proof.
  intros Hx0 Hx1 Hy0 Hy1 Hin. assert (0 <= y * width) by nia.
  unfold visit, error_of.
  destruct (Z.ltb_spec (y + 1) height); [| lia].
  destruct (Z.ltb_spec (x + 1) width); [| lia].
  destruct (Z.geb_spec (x - 1) 0); cbn [andb];
    rewrite fa_get_add_eq by (rewrite ?fa_add_length, fa_set_length; lia);
    by rewrite ?fa_get_add_ne, fa_get_set_ne by lia.
Qed.

End Deposits.

(** ** The history of one cell along the scan *)

Section History.
Variables (width height : Z) (levels imageData : list float).
Hypothesis width_nonneg : 0 <= width.
Hypothesis valid_length : Z.of_nat (length imageData) = width * height.

Let prefix (k : nat) : list float := scan_prefix width height levels k imageData.

Lemma raster_lookup_cell y x :
  0 <= x < width → 0 <= y < height →
  raster width height !! Z.to_nat (y * width + x) = Some (y, x).
Proof.
  intros Hx Hy.
  assert (0 <= y * width + x < width * height) as Hin by nia.
  destruct (lookup_lt_is_Some_2 (raster width height) (Z.to_nat (y * width + x)))
    as [[y' x'] Hp].
  { rewrite raster_length by done. lia. }
  rewrite Hp. apply raster_lookup in Hp as (Hi & _ & Hx'); [| done].
  unfold pixel_index in Hi. simpl in Hi, Hx'. rewrite Z2Nat.id in Hi by lia.
  by apply cell_index_inj in Hi as [-> ->].
Qed.

(** A step that does not touch the cell leaves it as it is. *)
Lemma history_step_untouched (k : nat) y x :
  0 <= x < width → 0 <= y →
  (∀ yk xk, raster width height !! k = Some (yk, xk) → ¬ touched yk xk (y, x)) →
  prefix (S k) !! Z.to_nat (y * width + x) = prefix k !! Z.to_nat (y * width + x).
Proof.
  intros Hx Hy Hno. subst prefix. cbv beta.
  assert (0 <= y * width + x) as Hj by nia.
  destruct (raster width height !! k) as [[yk xk] |] eqn:Hk.
  - rewrite (scan_prefix_S _ _ _ _ _ _ Hk). unfold visit_pixel. cbn [fst snd].
    rewrite <- !fa_get_nat, Z2Nat.id by done.
    apply raster_lookup in Hk as (_ & _ & Hxk); [| done].
    apply visit_untouched; auto.
  - apply lookup_ge_None in Hk. by rewrite !scan_prefix_beyond by lia.
Qed.

Lemma history_untouched (a b : nat) y x :
  0 <= x < width → 0 <= y → (a <= b)%nat →
  (∀ (k : nat) yk xk, (a <= k < b)%nat →
     raster width height !! k = Some (yk, xk) → ¬ touched yk xk (y, x)) →
  prefix b !! Z.to_nat (y * width + x) = prefix a !! Z.to_nat (y * width + x).
Proof.
  intros Hx Hy Hab Hno. induction b as [| b IH].
  - by replace a with 0%nat by lia.
  - destruct (decide (a = S b)) as [-> | Hne]; [done |].
    rewrite history_step_untouched;
      [| done | done | intros yk xk Hk; apply (Hno b); [lia | done]].
    apply IH; [lia |]. intros k yk xk Hk. apply Hno. lia.
Qed.

(** A step that deposits into the cell adds its error times the weight. *)
Lemma history_deposit (k : nat) yk xk (j : Z) (w : float) :
  raster width height !! k = Some (yk, xk) →
  0 <= j →
  fa_get (visit width height levels (prefix k) yk xk) j
  = Some (ToNumber (fa_get (prefix k) j)
          + (ToNumber (fa_get (prefix k) (yk * width + xk))
             - ToNumber (findNearestLevel (fa_get (prefix k) (yk * width + xk))
                                          levels)) * w)%float →
  prefix (S k) !! Z.to_nat j
  = Some (ToNumber (prefix k !! Z.to_nat j)
          + error_at width height levels imageData k * w)%float.
Proof.
  intros Hk Hj Hvisit. subst prefix. cbv beta in *.
  rewrite (scan_prefix_S _ _ _ _ _ _ Hk). unfold visit_pixel. cbn [fst snd].
  rewrite <- !fa_get_nat, Z2Nat.id, Hvisit by done.
  apply raster_lookup in Hk as (Hi & _); [| done].
  unfold pixel_index in Hi. simpl in Hi. unfold error_at.
  by rewrite Hi, !fa_get_nat.
Qed.

End History.

(** ** Scatter is gather *)

Section Gather.
Variables (width height : Z) (levels imageData : list float).
Hypothesis width_nonneg : 0 <= width.
Hypothesis valid_length : Z.of_nat (length imageData) = width * height.
Variables (y x : Z).
Hypothesis x_in_grid : 0 <= x < width.
Hypothesis y_in_grid : 0 <= y < height.

Let prefix (k : Z) : JS.value :=
  scan_prefix width height levels (Z.to_nat k) imageData
    !! Z.to_nat (y * width + x).
Let error (k : Z) : float :=
  error_at width height levels imageData (Z.to_nat k).

Lemma cell_untouched (a b : Z) :
  0 <= a <= b →
  (∀ yk xk, 0 <= xk < width → 0 <= yk →
     a <= yk * width + xk < b → ¬ touched yk xk (y, x)) →
  prefix b = prefix a.
Proof.
  intros Hab Hno. subst prefix. cbv beta.
  apply history_untouched; [done | done | lia | lia |].
  intros k yk xk Hk Hp.
  apply raster_lookup in Hp as (Hi & Hyk & Hxk); [| done].
  unfold pixel_index in Hi. simpl in Hi, Hyk, Hxk.
  apply Hno; lia.
Qed.

Lemma cell_from_left :
  1 <= x →
  prefix (y * width + x)
  = Some (ToNumber (prefix (y * width + x - 1))
          + error (y * width + x - 1) * (7 / 16))%float.
Proof.
  intros Hx. subst prefix error. cbv beta.
  assert (0 <= y * width) by nia.
  replace (Z.to_nat (y * width + x)) with (S (Z.to_nat (y * width + x - 1)))
    at 2 by lia.
  apply (history_deposit _ _ _ _ width_nonneg _ y (x - 1)); [| lia |].
  - replace (y * width + x - 1) with (y * width + (x - 1)) by lia.
    apply raster_lookup_cell; [done | done | lia | lia].
  - pose proof (visit_deposit_right width height levels
                  (scan_prefix width height levels
                     (Z.to_nat (y * width + x - 1)) imageData) y (x - 1)) as Hd.
    replace (x - 1 + 1) with x in Hd by lia.
    apply Hd; [lia | lia | lia |]. rewrite scan_prefix_length. nia.
Qed.

Lemma cell_from_up :
  1 <= y →
  prefix (y * width + x - width + 1)
  = Some (ToNumber (prefix (y * width + x - width))
          + error (y * width + x - width) * (5 / 16))%float.
Proof.
  intros Hy. subst prefix error. cbv beta.
  assert (0 <= (y - 1) * width) by nia.
  replace (Z.to_nat (y * width + x - width + 1))
    with (S (Z.to_nat (y * width + x - width))) by lia.
  apply (history_deposit _ _ _ _ width_nonneg _ (y - 1) x); [| nia |].
  - replace (y * width + x - width) with ((y - 1) * width + x) by lia.
    apply raster_lookup_cell; [done | done | lia | lia].
  - pose proof (visit_deposit_bottom width height levels
                  (scan_prefix width height levels
                     (Z.to_nat (y * width + x - width)) imageData) (y - 1) x) as Hd.
    replace (y - 1 + 1) with y in Hd by lia.
    apply Hd; [lia | lia | lia |]. rewrite scan_prefix_length. nia.
Qed.

Lemma cell_from_up_left :
  1 <= x → 1 <= y →
  prefix (y * width + x - width)
  = Some (ToNumber (prefix (y * width + x - width - 1))
          + error (y * width + x - width - 1) * (1 / 16))%float.
Proof.
  intros Hx Hy. subst prefix error. cbv beta.
  assert (0 <= (y - 1) * width) by nia.
  replace (Z.to_nat (y * width + x - width))
    with (S (Z.to_nat (y * width + x - width - 1))) by lia.
  apply (history_deposit _ _ _ _ width_nonneg _ (y - 1) (x - 1)); [| nia |].
  - replace (y * width + x - width - 1) with ((y - 1) * width + (x - 1)) by lia.
    apply raster_lookup_cell; [done | done | lia | lia].
  - pose proof (visit_deposit_bottom_right width height levels
                  (scan_prefix width height levels
                     (Z.to_nat (y * width + x - width - 1)) imageData)
                  (y - 1) (x - 1)) as Hd.
    replace (y - 1 + 1) with y in Hd by lia.
    replace (x - 1 + 1) with x in Hd by lia.
    apply Hd; [lia | lia | lia | lia |]. rewrite scan_prefix_length. nia.
Qed.

Lemma cell_from_up_right :
  x + 1 < width → 1 <= y →
  prefix (y * width + x - width + 2)
  = Some (ToNumber (prefix (y * width + x - width + 1))
          + error (y * width + x - width + 1) * (3 / 16))%float.
Proof.
  intros Hx Hy. subst prefix error. cbv beta.
  assert (0 <= (y - 1) * width) by nia.
  replace (Z.to_nat (y * width + x - width + 2))
    with (S (Z.to_nat (y * width + x - width + 1))) by lia.
  apply (history_deposit _ _ _ _ width_nonneg _ (y - 1) (x + 1)); [| nia |].
  - replace (y * width + x - width + 1) with ((y - 1) * width + (x + 1)) by lia.
    apply raster_lookup_cell; [done | done | lia | lia].
  - pose proof (visit_deposit_bottom_left width height levels
                  (scan_prefix width height levels
                     (Z.to_nat (y * width + x - width + 1)) imageData)
                  (y - 1) (x + 1)) as Hd.
    replace (y - 1 + 1) with y in Hd by lia.
    replace (x + 1 - 1) with x in Hd by lia.
    apply Hd; [lia | lia | lia |]. rewrite scan_prefix_length. nia.
Qed.

Ltac no_touch :=
  let yk := fresh "yk" in
  intros yk ? ? ? ?; unfold touched;
  let H := fresh "Htouch" in
  intros [H | [H | [H | [H | H]]]]; injection H as ? ?;
  first [ assert (yk = y) as -> by lia | assert (yk = y - 1) as -> by lia ];
  lia.

(** The value the scan finds in a cell is the input value plus what the
    up-left, up, up-right and left neighbours deposited, in that order. *)
Lemma scan_gathers (input : float) :
  imageData !! Z.to_nat (y * width + x) = Some input →
  prefix (y * width + x)
  = Some (gathered width height levels imageData input y x).
Proof.
  intros Hin. assert (prefix 0 = Some input) as H0 by exact Hin.
  assert (0 <= y * width) by nia.
  unfold gathered. cbv zeta.
  destruct (Z.leb_spec 1 y) as [Hy | Hy].
  - assert (width <= y * width) by nia.
    destruct (Z.leb_spec 1 x) as [Hx | Hx],
      (Z.ltb_spec (x + 1) width) as [Hr | Hr]; cbn [andb].
    + rewrite cell_from_left by done.
      rewrite (cell_untouched (y * width + x - width + 2) (y * width + x - 1));
        [| lia | no_touch].
      rewrite cell_from_up_right, cell_from_up, cell_from_up_left by done.
      rewrite (cell_untouched 0 (y * width + x - width - 1)); [| lia | no_touch].
      by rewrite H0.
    + rewrite cell_from_left by done.
      rewrite (cell_untouched (y * width + x - width + 1) (y * width + x - 1));
        [| lia | no_touch].
      rewrite cell_from_up, cell_from_up_left by done.
      rewrite (cell_untouched 0 (y * width + x - width - 1)); [| lia | no_touch].
      by rewrite H0.
    + rewrite (cell_untouched (y * width + x - width + 2) (y * width + x));
        [| lia | no_touch].
      rewrite cell_from_up_right, cell_from_up by done.
      rewrite (cell_untouched 0 (y * width + x - width)); [| lia | no_touch].
      by rewrite H0.
    + rewrite (cell_untouched (y * width + x - width + 1) (y * width + x));
        [| lia | no_touch].
      rewrite cell_from_up by done.
      rewrite (cell_untouched 0 (y * width + x - width)); [| lia | no_touch].
      by rewrite H0.
  - rewrite !andb_false_r.
    destruct (Z.leb_spec 1 x) as [Hx | Hx].
    + rewrite cell_from_left by done.
      rewrite (cell_untouched 0 (y * width + x - 1)); [| lia | no_touch].
      by rewrite H0.
    + rewrite (cell_untouched 0 (y * width + x)); [| lia | no_touch].
      by rewrite H0.
Qed.

End Gather.

(** X1: scatter is gather.  On valid dimensions, the value the scan finds in
    cell [(x, y)] when it visits it is the input value plus the deposits of
    the up-left (1/16), up (5/16), up-right (3/16) and left (7/16)
    neighbours that exist, added in that order; the output cell is the
    conversion of the level nearest to that value. *)
Theorem applyErrorDiffusion_gathers
    (imageData : list float) (width height : Z) (levels : list float)
    (y x : Z) (input : float) :
  Z.of_nat (length imageData) = width * height →
  0 <= x < width → 0 <= y < height →
  imageData !! Z.to_nat (y * width + x) = Some input →
  let value := gathered width height levels imageData input y x in
  scan_prefix width height levels (Z.to_nat (y * width + x)) imageData
    !! Z.to_nat (y * width + x) = Some value
  ∧ applyErrorDiffusion imageData width height levels
      !! Z.to_nat (y * width + x)
    = Some (convert (ToNumber (findNearestLevel (Some value) levels))).
Proof.
  intros Hlen Hx Hy Hin value.
  assert (0 <= width) as Hw by lia.
  assert (scan_prefix width height levels (Z.to_nat (y * width + x)) imageData
            !! Z.to_nat (y * width + x) = Some value) as Hvalue.
  { by apply scan_gathers. }
  split; [done |].
  rewrite applyErrorDiffusion_lookup, Hvalue; [done | done | nia | nia].
Qed.

Lemma applyErrorDiffusion_gathers_witness :
  let imageData := of_Z <$> [12; 200; 97; 251; 140; 33] in
  let levels := of_Z <$> [0; 51; 102; 153; 204; 255] in
  let value := gathered 3 2 levels imageData (of_Z 140) 1 1 in
  scan_prefix 3 2 levels (Z.to_nat (1 * 3 + 1)) imageData
    !! Z.to_nat (1 * 3 + 1) = Some value
  ∧ applyErrorDiffusion imageData 3 2 levels !! Z.to_nat (1 * 3 + 1)
    = Some (convert (ToNumber (findNearestLevel (Some value) levels))).
Proof.
  apply (applyErrorDiffusion_gathers
           (of_Z <$> [12; 200; 97; 251; 140; 33]) 3 2
           (of_Z <$> [0; 51; 102; 153; 204; 255]) 1 1 (of_Z 140)).
  - reflexivity.
  - lia.
  - lia.
  - reflexivity.
Defined.

(** X2: a visit is local.  If visiting pixel [(x, y)] changes the cell at
    column [x'] of row [y'], that cell is the pixel itself or its right,
    bottom-left, bottom or bottom-right neighbour: no deposit wraps around
    a row end. *)
Theorem visit_changes_only_neighbours
    (result : list float) (width height : Z) (levels : list float)
    (y x y' x' : Z) :
  0 <= x < width → 0 <= x' < width →
  fa_get (visit width height levels result y x) (y' * width + x')
  ≠ fa_get result (y' * width + x') →
  touched y x (y', x') ∧ y <= y' <= y + 1 ∧ x - 1 <= x' <= x + 1.
Proof.
  intros Hx Hx' Hchanged.
  assert (touched y x (y', x')) as Ht.
  { unfold touched.
    destruct (decide ((y', x') = (y, x))); [tauto |].
    destruct (decide ((y', x') = (y, x + 1))); [tauto |].
    destruct (decide ((y', x') = (y + 1, x - 1))); [tauto |].
    destruct (decide ((y', x') = (y + 1, x))); [tauto |].
    destruct (decide ((y', x') = (y + 1, x + 1))); [tauto |].
    exfalso. apply Hchanged, visit_untouched; [done | done |].
    unfold touched. tauto. }
  split; [done |].
  destruct Ht as [H | [H | [H | [H | H]]]]; injection H as -> ->; lia.
Qed.

Lemma visit_changes_only_neighbours_witness :
  touched 0 1 (1, 0) ∧ 0 <= 1 <= 0 + 1 ∧ 1 - 1 <= 0 <= 1 + 1.
Proof.
  apply (visit_changes_only_neighbours
           (of_Z <$> [12; 200; 97; 251; 140; 33]) 3 2
           (of_Z <$> [0; 51; 102; 153; 204; 255]) 0 1 1 0).
  - lia.
  - lia.
  - vm_compute. discriminate.
Defined.

(** ** Later cells never influence earlier ones *)

Section Causality.
Variable k : nat.
Implicit Types (r : list float) (i : Z).

Lemma fa_get_agree r1 r2 i :
  agree_before k r1 r2 → i < Z.of_nat k → fa_get r1 i = fa_get r2 i.
Proof.
  intros Hag Hi. unfold fa_get. destruct (Z.ltb_spec i 0); [done |].
  apply Hag. lia.
Qed.

Lemma fa_set_agree r1 r2 i (v1 v2 : float) :
  agree_before k r1 r2 → (i < Z.of_nat k → v1 = v2) →
  agree_before k (fa_set r1 i v1) (fa_set r2 i v2).
Proof.
  intros Hag Hv j Hj. unfold fa_set. destruct (Z.ltb_spec i 0); [by apply Hag |].
  rewrite !list_lookup_insert. specialize (Hag j Hj).
  assert ((j < length r1)%nat ↔ (j < length r2)%nat) as Hlen
    by (by rewrite <- !lookup_lt_is_Some, Hag).
  destruct (decide (Z.to_nat i = j ∧ (Z.to_nat i < length r1)%nat))
    as [[He1 H1] | H1],
    (decide (Z.to_nat i = j ∧ (Z.to_nat i < length r2)%nat))
    as [[He2 H2] | H2]; try done.
  - rewrite Hv by lia. done.
  - exfalso. apply H2. rewrite He1 in *. tauto.
  - exfalso. apply H1. rewrite He2 in *. tauto.
Qed.

Lemma fa_add_agree r1 r2 i (d : float) :
  agree_before k r1 r2 → agree_before k (fa_add r1 i d) (fa_add r2 i d).
Proof.
  intros Hag. apply fa_set_agree; [done |].
  intros Hi. by rewrite (fa_get_agree r1 r2 i).
Qed.

Lemma visit_agree width height levels r1 r2 y x :
  agree_before k r1 r2 → y * width + x < Z.of_nat k →
  agree_before k (visit width height levels r1 y x)
                 (visit width height levels r2 y x).
Proof.
  intros Hag Hi. unfold visit.
  rewrite (fa_get_agree r1 r2 (y * width + x)) by done.
  repeat match goal with
         | |- context [if ?b then _ else _] => destruct b
         end;
    repeat apply fa_add_agree; by apply fa_set_agree.
Qed.

Lemma scan_prefix_agree width height levels r1 r2 (n : nat) :
  0 <= width → agree_before k r1 r2 → (n <= k)%nat →
  agree_before k (scan_prefix width height levels n r1)
                 (scan_prefix width height levels n r2).
Proof.
  intros Hw Hag. induction n as [| n IH]; intros Hn; [done |].
  destruct (raster width height !! n) as [p |] eqn:Hp.
  - rewrite !(scan_prefix_S _ _ _ _ _ _ Hp). unfold visit_pixel.
    apply raster_lookup in Hp as (Hi & _); [| done]. unfold pixel_index in Hi.
    apply visit_agree; [apply IH |]; lia.
  - apply lookup_ge_None in Hp.
    rewrite !(scan_prefix_beyond _ _ _ (S n)) by lia.
    rewrite <- !(scan_prefix_beyond _ _ _ n) by lia. apply IH. lia.
Qed.

Lemma scan_lookup_own_step width height levels r (j : nat) :
  0 <= width →
  scan width height levels r !! j = scan_prefix width height levels (S j) r !! j.
Proof.
  intros Hw. destruct (decide (j < length (raster width height))%nat).
  - rewrite <- (scan_prefix_beyond _ _ _ (length (raster width height))) by done.
    by apply scan_prefix_frozen.
  - by rewrite scan_prefix_beyond by lia.
Qed.

End Causality.

(** X3: the scan is causal.  If two input buffers hold the same values in
    their first [k] cells, the two outputs hold the same values in their
    first [k] cells: what a cell becomes never depends on a later cell. *)
Theorem applyErrorDiffusion_causal
    (imageData1 imageData2 : list float) (width height : Z)
    (levels : list float) (k : nat) :
  take k imageData1 = take k imageData2 →
  take k (applyErrorDiffusion imageData1 width height levels)
  = take k (applyErrorDiffusion imageData2 width height levels).
Proof.
  intros Htake.
  assert (agree_before k imageData1 imageData2) as Hag.
  { intros j Hj. by rewrite <- (lookup_take_lt imageData1 k j),
      <- (lookup_take_lt imageData2 k j), Htake by done. }
  apply list_eq. intros j. rewrite !lookup_take.
  destruct (decide (j < k)%nat) as [Hj | Hj]; [| done].
  unfold applyErrorDiffusion. rewrite !list_lookup_fmap. f_equal.
  destruct (Z.le_gt_cases 0 width) as [Hw | Hw].
  - rewrite !scan_lookup_own_step by done.
    apply (scan_prefix_agree k); [done | done | lia | done].
  - rewrite !scan_no_grid by lia. by apply Hag.
Qed.

Lemma applyErrorDiffusion_causal_witness :
  take 3 (applyErrorDiffusion (of_Z <$> [12; 200; 97; 251; 140; 33]) 3 2
                              (of_Z <$> [0; 51; 102; 153; 204; 255]))
  = take 3 (applyErrorDiffusion (of_Z <$> [12; 200; 97; 0; 255; 128]) 3 2
                                (of_Z <$> [0; 51; 102; 153; 204; 255])).
Proof.
  apply (applyErrorDiffusion_causal
           (of_Z <$> [12; 200; 97; 251; 140; 33])
           (of_Z <$> [12; 200; 97; 0; 255; 128]) 3 2
           (of_Z <$> [0; 51; 102; 153; 204; 255]) 3).
  reflexivity.
Defined.

(** ** Images that are already quantized *)

Lemma of_Z_sub_self z : 0 <= z <= 255 → (of_Z z - of_Z z)%float = 0%float.
Proof.
  intros Hz. apply Leibniz.eqb_spec. revert z Hz.
  apply (forall_byte (fun z => Leibniz.eqb (of_Z z - of_Z z)%float 0%float)).
  vm_compute. reflexivity.
Qed.

Lemma of_Z_add_zero z : 0 <= z <= 255 → (of_Z z + 0)%float = of_Z z.
Proof.
  intros Hz. apply Leibniz.eqb_spec. revert z Hz.
  apply (forall_byte (fun z => Leibniz.eqb (of_Z z + 0)%float (of_Z z))).
  vm_compute. reflexivity.
Qed.

(** A value that is a level is its own nearest level. *)
Lemma findNearestLevel_member (l : Z) (palette : list Z) :
  Forall (fun l => 0 <= l <= 255) palette →
  l ∈ palette →
  findNearestLevel (Some (of_Z l)) (of_Z <$> palette) = Some (of_Z l).
Proof.
  intros Hrange Hl.
  assert (0 <= l <= 255) as Hl' by (rewrite Forall_forall in Hrange; auto).
  destruct (findNearestLevel_of_Z l palette) as (l0 & -> & _ & Hmin);
    [done | intros ->; inversion Hl | done |].
  specialize (Hmin l Hl). by replace l0 with l by lia.
Qed.

Lemma fa_add_zero (r : list float) (i : Z) :
  (∀ c, c ∈ r → (c + 0)%float = c) → fa_add r i 0 = r.
Proof.
  intros Hzero. unfold fa_add, fa_set, fa_get.
  destruct (Z.ltb_spec i 0); [done |].
  apply list_insert_id'. intros Hi.
  destruct (lookup_lt_is_Some_2 r (Z.to_nat i) Hi) as [c Hc].
  rewrite Hc. cbn [ToNumber default]. f_equal. symmetry.
  by eapply Hzero, list_elem_of_lookup_2.
Qed.

Section Quantized.
Variables (width height : Z) (palette zs : list Z).
Hypothesis palette_range : Forall (fun l => 0 <= l <= 255) palette.
Hypothesis cells_are_levels : Forall (fun z => z ∈ palette) zs.

Lemma level_cells_add_zero c : c ∈ of_Z <$> zs → (c + 0)%float = c.
Proof.
  intros (z & -> & Hz)%list_elem_of_fmap.
  rewrite Forall_forall in palette_range, cells_are_levels.
  apply of_Z_add_zero. auto.
Qed.

(** Visiting a cell that holds a level changes nothing: the error is 0. *)
Lemma visit_levels_fixed y x :
  0 <= y * width + x < Z.of_nat (length zs) →
  visit width height (of_Z <$> palette) (of_Z <$> zs) y x = of_Z <$> zs.
Proof.
  intros Hin. unfold visit. cbv zeta.
  destruct (lookup_lt_is_Some_2 zs (Z.to_nat (y * width + x))) as [z Hz];
    [lia |].
  assert (fa_get (of_Z <$> zs) (y * width + x) = Some (of_Z z)) as ->.
  { rewrite <- (Z2Nat.id (y * width + x)), fa_get_nat by lia.
    by rewrite list_lookup_fmap, Hz. }
  assert (z ∈ palette) as Hzp.
  { rewrite Forall_forall in cells_are_levels.
    by eapply cells_are_levels, list_elem_of_lookup_2. }
  rewrite findNearestLevel_member by done.
  change (ToNumber (Some (of_Z z))) with (of_Z z).
  rewrite of_Z_sub_self by (rewrite Forall_forall in palette_range; auto).
  change (0 * (7 / 16))%float with 0%float.
  change (0 * (3 / 16))%float with 0%float.
  change (0 * (5 / 16))%float with 0%float.
  change (0 * (1 / 16))%float with 0%float.
  assert (fa_set (of_Z <$> zs) (y * width + x) (of_Z z) = of_Z <$> zs) as ->.
  { unfold fa_set. destruct (Z.ltb_spec (y * width + x) 0); [done |].
    apply list_insert_id. by rewrite list_lookup_fmap, Hz. }
  repeat match goal with
         | |- context [if ?b then _ else _] => destruct b
         end;
    by rewrite ?(fa_add_zero (of_Z <$> zs)) by apply level_cells_add_zero.
Qed.

Lemma scan_levels_fixed :
  Z.of_nat (length zs) = width * height →
  scan width height (of_Z <$> palette) (of_Z <$> zs) = of_Z <$> zs.
Proof.
  intros Hlen. rewrite scan_raster.
  pose proof (raster_in_grid width height) as Hg.
  induction Hg as [| [y x] ps Hp _ IH]; [done |].
  cbn [foldl]. unfold visit_pixel at 2. cbn [fst snd].
  simpl in Hp. rewrite visit_levels_fixed by nia. apply IH.
Qed.

Lemma convert_levels : convert <$> (of_Z <$> zs) = zs.
Proof.
  rewrite <- list_fmap_compose. rewrite <- (list_fmap_id zs) at 2.
  apply Forall_fmap_ext_1.
  rewrite Forall_forall in palette_range, cells_are_levels.
  apply Forall_forall. intros z Hz. simpl. apply convert_level. auto.
Qed.

End Quantized.

Lemma applyErrorDiffusion_cells_are_levels
    (imageData : list float) (width height : Z) (palette : list Z) :
  0 <= width →
  Z.of_nat (length imageData) = width * height →
  palette ≠ [] →
  Forall (fun l => 0 <= l <= 255) palette →
  Forall (fun b => b ∈ palette)
         (applyErrorDiffusion imageData width height (of_Z <$> palette)).
Proof.
  intros Hw Hlen Hne Hrange. apply Forall_lookup. intros j b Hb.
  assert (j < length imageData)%nat as Hj.
  { rewrite <- (applyErrorDiffusion_length imageData width height (of_Z <$> palette)).
    by eapply lookup_lt_Some. }
  rewrite applyErrorDiffusion_lookup in Hb by (done || lia).
  injection Hb as <-.
  match goal with |- context [findNearestLevel ?v ?ls] =>
    destruct (findNearestLevel_elem v ls) as (l & -> & Hl) end.
  { by destruct palette. }
  apply list_elem_of_fmap in Hl as (z & -> & Hz). simpl.
  rewrite Forall_forall in Hrange. by rewrite convert_level by auto.
Qed.

(** X4: quantized images are fixed points.  On valid dimensions and a
    palette of integers in [0, 255], an image whose cells are all palette
    levels comes back unchanged (every error is 0); so running the engine
    on its own output gives that output again. *)
Theorem applyErrorDiffusion_idempotent (width height : Z) (palette : list Z) :
  0 <= width → 0 <= height →
  palette ≠ [] →
  Forall (fun l => 0 <= l <= 255) palette →
  (∀ zs : list Z,
     Forall (fun z => z ∈ palette) zs →
     Z.of_nat (length zs) = width * height →
     applyErrorDiffusion (of_Z <$> zs) width height (of_Z <$> palette) = zs)
  ∧ (∀ imageData : list float,
       Z.of_nat (length imageData) = width * height →
       let output :=
         applyErrorDiffusion imageData width height (of_Z <$> palette) in
       applyErrorDiffusion (of_Z <$> output) width height (of_Z <$> palette)
       = output).
Proof.
  intros Hw Hh Hne Hrange.
  assert (∀ zs : list Z,
            Forall (fun z => z ∈ palette) zs →
            Z.of_nat (length zs) = width * height →
            applyErrorDiffusion (of_Z <$> zs) width height (of_Z <$> palette)
            = zs) as Hfixed.
  { intros zs Hzs Hlen. unfold applyErrorDiffusion.
    rewrite scan_levels_fixed by done. by apply (convert_levels palette). }
  split; [done |].
  intros imageData Hlen output. apply Hfixed.
  - by apply applyErrorDiffusion_cells_are_levels.
  - subst output. by rewrite applyErrorDiffusion_length.
Qed.

Lemma applyErrorDiffusion_idempotent_witness :
  (∀ zs : list Z,
     Forall (fun z => z ∈ [0; 51; 102; 153; 204; 255]) zs →
     Z.of_nat (length zs) = 3 * 2 →
     applyErrorDiffusion (of_Z <$> zs) 3 2
                         (of_Z <$> [0; 51; 102; 153; 204; 255]) = zs)
  ∧ (∀ imageData : list float,
       Z.of_nat (length imageData) = 3 * 2 →
       let output :=
         applyErrorDiffusion imageData 3 2
                             (of_Z <$> [0; 51; 102; 153; 204; 255]) in
       applyErrorDiffusion (of_Z <$> output) 3 2
                           (of_Z <$> [0; 51; 102; 153; 204; 255])
       = output).
Proof.
  apply (applyErrorDiffusion_idempotent 3 2 [0; 51; 102; 153; 204; 255]).
  - lia.
  - lia.
  - discriminate.
  - repeat constructor; lia.
Defined.

(** ** Values that are not numbers *)

Lemma SFeqb_self_false (s : spec_float) : SFeqb s s = false → s = S754_nan.
Proof.
  unfold SFeqb. destruct s as [[] | [] | | sg m e]; try discriminate; [done |].
  rewrite SFcompare_finite_same_sign, Z.compare_refl, Pos.compare_refl.
  by destruct sg.
Qed.

Lemma is_nan_Prim2SF (v : float) : is_nan v = true → Prim2SF v = S754_nan.
Proof.
  unfold is_nan. rewrite negb_true_iff, FloatAxioms.eqb_spec.
  apply SFeqb_self_false.
Qed.

Lemma Prim2SF_is_nan (v : float) : Prim2SF v = S754_nan → is_nan v = true.
Proof.
  intros Hv. unfold is_nan. by rewrite FloatAxioms.eqb_spec, Hv.
Qed.

Lemma is_nan_add_l (a b : float) : is_nan a = true → is_nan (a + b) = true.
Proof.
  intros Ha%is_nan_Prim2SF. apply Prim2SF_is_nan.
  by rewrite FloatAxioms.add_spec, Ha.
Qed.

Lemma distance_nan (value : JS.value) (level : float) :
  is_nan (ToNumber value) = true →
  Prim2SF (distance value level) = S754_nan.
Proof.
  intros Hv%is_nan_Prim2SF. unfold distance.
  by rewrite FloatAxioms.abs_spec, FloatAxioms.sub_spec, Hv.
Qed.

Lemma ltb_nan_l (a b : float) : Prim2SF a = S754_nan → (a <? b)%float = false.
Proof. intros Ha. by rewrite FloatAxioms.ltb_spec, Ha. Qed.

(** The loop never replaces the candidate when the value is not a number. *)
Lemma findNearestLevel_loop_nan (value : JS.value) (levels : list float) :
  is_nan (ToNumber value) = true →
  ∀ state, foldl (findNearestLevel_step value) state levels = state.
Proof.
  intros Hv. induction levels as [| level levels IH]; intros [nearest m]; [done |].
  cbn [foldl findNearestLevel_step]. fold (distance value level).
  by rewrite (ltb_nan_l _ _ (distance_nan value level Hv)).
Qed.

Lemma findNearestLevel_nan (value : JS.value) (levels : list float) :
  is_nan (ToNumber value) = true →
  findNearestLevel value levels = head levels.
Proof.
  intros Hv. unfold findNearestLevel.
  by rewrite findNearestLevel_loop_nan.
Qed.

Lemma gathered_nan width height levels imageData (input : float) y x :
  is_nan input = true →
  is_nan (gathered width height levels imageData input y x) = true.
Proof.
  intros Hin. unfold gathered. cbv zeta.
  repeat match goal with
         | |- context [if ?b then _ else _] => destruct b
         end;
    repeat apply is_nan_add_l; done.
Qed.

(** X5: values that are not numbers go to the first level.
    [findNearestLevel] returns [levels[0]] for [undefined] and for NaN,
    because no comparison with a NaN distance succeeds; so on valid
    dimensions an input cell holding NaN comes out as the conversion of the
    first level, whatever its neighbours hold. *)
Theorem not_a_number_goes_to_first_level
    (imageData : list float) (width height : Z) (levels : list float)
    (y x : Z) (input : float) :
  Z.of_nat (length imageData) = width * height →
  0 <= x < width → 0 <= y < height →
  imageData !! Z.to_nat (y * width + x) = Some input →
  is_nan input = true →
  findNearestLevel None levels = head levels
  ∧ findNearestLevel (Some input) levels = head levels
  ∧ applyErrorDiffusion imageData width height levels
      !! Z.to_nat (y * width + x)
    = Some (convert (ToNumber (head levels))).
Proof.
  intros Hlen Hx Hy Hin Hnan. assert (0 <= width) as Hw by lia.
  split; [by apply findNearestLevel_nan |].
  split; [by apply findNearestLevel_nan |].
  rewrite applyErrorDiffusion_lookup by (done || nia).
  rewrite (scan_gathers width height levels imageData Hw Hlen y x Hx Hy input Hin).
  rewrite findNearestLevel_nan; [done |].
  by apply gathered_nan.
Qed.

Lemma not_a_number_goes_to_first_level_witness :
  let imageData := [12; 200; nan; 251; 140; 33]%float in
  let levels := of_Z <$> [51; 102; 153] in
  findNearestLevel None levels = head levels
  ∧ findNearestLevel (Some nan) levels = head levels
  ∧ applyErrorDiffusion imageData 3 2 levels !! Z.to_nat (0 * 3 + 2)
    = Some (convert (ToNumber (head levels))).
Proof.
  apply (not_a_number_goes_to_first_level
           [12; 200; nan; 251; 140; 33]%float 3 2 (of_Z <$> [51; 102; 153])
           0 2 nan).
  - reflexivity.
  - lia.
  - lia.
  - reflexivity.
  - reflexivity.
Defined.

(** ** The quantizer on integer intensities *)

Lemma leb_of_Z a b :
  0 <= a <= 255 → 0 <= b <= 255 → (of_Z a <=? of_Z b)%float = (a <=? b).
Proof.
  intros Ha Hb. apply eqb_prop. revert a b Ha Hb.
  apply (forall_byte2 (fun a b => Bool.eqb (of_Z a <=? of_Z b)%float (a <=? b))).
  vm_compute. reflexivity.
Qed.

Lemma findNearestLevel_integers_index (v : Z) (palette : list Z) :
  0 <= v <= 255 →
  palette ≠ [] →
  Forall (fun l => 0 <= l <= 255) palette →
  ∃ (i : nat) (l : Z),
    findNearestLevel (Some (of_Z v)) (of_Z <$> palette) = Some (of_Z l)
    ∧ palette !! i = Some l
    ∧ ∀ (j : nat) (l' : Z), palette !! j = Some l' →
        Z.abs (v - l) <= Z.abs (v - l')
        ∧ (Z.abs (v - l') = Z.abs (v - l) → (i <= j)%nat).
Proof.
  intros Hv Hne Hrange. rewrite Forall_forall in Hrange.
  destruct (findNearestLevel_candidate (Some (of_Z v)) (of_Z <$> palette))
    as (i & fl & Hres & Hi & Hmin & Hfirst).
  { by destruct palette. }
  apply list_lookup_fmap_Some in Hi as (l & -> & Hi).
  pose proof (Hrange l (list_elem_of_lookup_2 _ _ _ Hi)) as Hlr.
  exists i, l. split; [done |]. split; [done |].
  intros j l' Hj.
  pose proof (list_elem_of_lookup_2 _ _ _ Hj) as Hl'.
  pose proof (Hrange l' Hl'). split.
  - specialize (Hmin (of_Z l') (list_elem_of_fmap_2 _ _ _ Hl')).
    rewrite !distance_of_Z, ltb_of_Z in Hmin by lia.
    by apply Z.ltb_ge in Hmin.
  - intros Htie.
    apply (Hfirst j (of_Z l')); [by rewrite list_lookup_fmap, Hj |].
    rewrite !distance_of_Z, leb_of_Z by lia. apply Z.leb_le. lia.
Qed.

Lemma ascendingZ_index (palette : list Z) (i j : nat) (l l' : Z) :
  ascendingZ palette →
  palette !! i = Some l → palette !! j = Some l' →
  (i <= j)%nat → l <= l'.
Proof.
  intros Hasc Hi Hj Hij. destruct (decide (i = j)) as [-> | Hne].
  - rewrite Hi in Hj. injection Hj as ->. lia.
  - assert (l < l') by (apply (Hasc i j); [lia | done | done]). lia.
Qed.

(** X6: on the documented domain the nearest level is the real nearest.
    For an integer value in [0, 255] and a non-empty ascending palette of
    integers in [0, 255], [findNearestLevel] returns a member at least
    distance [|v - l|], and of two members at the same distance the lower
    one. *)
Theorem findNearestLevel_integers (v : Z) (palette : list Z) :
  0 <= v <= 255 →
  palette ≠ [] →
  Forall (fun l => 0 <= l <= 255) palette →
  ascendingZ palette →
  ∃ l, findNearestLevel (Some (of_Z v)) (of_Z <$> palette) = Some (of_Z l)
       ∧ l ∈ palette
       ∧ (∀ l', l' ∈ palette → Z.abs (v - l) <= Z.abs (v - l'))
       ∧ (∀ l', l' ∈ palette → Z.abs (v - l') = Z.abs (v - l) → l <= l').
Proof.
  intros Hv Hne Hrange Hasc.
  destruct (findNearestLevel_integers_index v palette Hv Hne Hrange)
    as (i & l & Hres & Hi & Hbest).
  exists l. split; [done |]. split; [by eapply list_elem_of_lookup_2 |]. split.
  - intros l' [j Hj]%list_elem_of_lookup. by apply (Hbest j l').
  - intros l' [j Hj]%list_elem_of_lookup Htie.
    apply (ascendingZ_index palette i j); [done | done | done |].
    by apply (Hbest j l').
Qed.

Lemma findNearestLevel_integers_witness :
  ∃ l, findNearestLevel (Some (of_Z 75)) (of_Z <$> [0; 50; 100]) = Some (of_Z l)
       ∧ l ∈ [0; 50; 100]
       ∧ (∀ l', l' ∈ [0; 50; 100] → Z.abs (75 - l) <= Z.abs (75 - l'))
       ∧ (∀ l', l' ∈ [0; 50; 100] → Z.abs (75 - l') = Z.abs (75 - l) → l <= l').
Proof.
  apply (findNearestLevel_integers 75 [0; 50; 100]).
  - lia.
  - discriminate.
  - repeat constructor; lia.
  - intros j1 j2 l1 l2 Hlt H1 H2.
    destruct j1 as [| [| [| ?]]], j2 as [| [| [| ?]]];
      simpl in H1, H2; try lia; try discriminate;
      injection H1 as <-; injection H2 as <-; lia.
Defined.



(** X7: the bands of the six levels.  With the palette of [main], an
    integer intensity in [0, 255] is quantized by the bands 0-25, 26-76,
    77-127, 128-178, 179-229 and 230-255; the quantization error is at most
    25, and a 1x1 image of that intensity comes out as that level. *)
Theorem main_levels_bands (v : Z) :
  0 <= v <= 255 →
  findNearestLevel (Some (of_Z v)) (of_Z <$> main_levels)
  = Some (of_Z (band_level v))
  ∧ Z.abs (v - band_level v) <= 25
  ∧ applyErrorDiffusion [of_Z v] 1 1 (of_Z <$> main_levels) = [band_level v].
Proof.
  intros Hv.
  pose (check (v : Z) :=
          match findNearestLevel (Some (of_Z v)) (of_Z <$> main_levels) with
          | Some l => Leibniz.eqb l (of_Z (band_level v))
          | None => false
          end
          && (Z.abs (v - band_level v) <=? 25)
          && match applyErrorDiffusion [of_Z v] 1 1 (of_Z <$> main_levels) with
             | [b] => b =? band_level v
             | _ => false
             end).
  assert (check v = true) as Hcheck.
  { apply (forall_byte check); [vm_compute; reflexivity | done]. }
  subst check. cbv beta in Hcheck.
  apply andb_prop in Hcheck as [[H1 H2]%andb_prop H3].
  split; [| split].
  - destruct (findNearestLevel _ _) as [l |]; [| done].
    by apply Leibniz.eqb_spec in H1 as ->.
  - by apply Z.leb_le.
  - destruct (applyErrorDiffusion _ _ _ _) as [| b [| ? ?]]; try done.
    by apply Z.eqb_eq in H3 as ->.
Qed.

Lemma main_levels_bands_witness :
  findNearestLevel (Some (of_Z 128)) (of_Z <$> main_levels)
  = Some (of_Z (band_level 128))
  ∧ Z.abs (128 - band_level 128) <= 25
  ∧ applyErrorDiffusion [of_Z 128] 1 1 (of_Z <$> main_levels) = [band_level 128].
Proof.
  apply (main_levels_bands 128). lia.
Defined.

(** ** Levels outside the byte range *)

Lemma convert_saturates z :
  -1024 <= z <= 1024 → convert (of_Z z) = Z.max 0 (Z.min 255 z).
Proof.
  intros Hz. apply Z.eqb_eq.
  apply (forall_range (fun z => convert (of_Z z) =? Z.max 0 (Z.min 255 z))
                      (-1024) 2049); [vm_compute; reflexivity | lia].
Qed.

(** X8: levels outside [0, 255] saturate.  On valid dimensions and a
    non-empty palette of integers between -1024 and 1024, every output
    cell is a palette level clamped to [0, 255]: a level above 255 is
    stored as 255 and a negative one as 0, never wrapped modulo 256. *)
Theorem applyErrorDiffusion_saturates
    (imageData : list float) (width height : Z) (palette : list Z) :
  0 <= width → 0 <= height →
  Z.of_nat (length imageData) = width * height →
  palette ≠ [] →
  Forall (fun l => -1024 <= l <= 1024) palette →
  Forall (fun b => ∃ l, l ∈ palette ∧ b = Z.max 0 (Z.min 255 l))
         (applyErrorDiffusion imageData width height (of_Z <$> palette)).
Proof.
  intros Hw Hh Hlen Hne Hrange. apply Forall_lookup. intros j b Hb.
  assert (j < length imageData)%nat as Hj.
  { rewrite <- (applyErrorDiffusion_length imageData width height (of_Z <$> palette)).
    by eapply lookup_lt_Some. }
  rewrite applyErrorDiffusion_lookup in Hb by (done || lia).
  injection Hb as <-.
  match goal with |- context [findNearestLevel ?v ?ls] =>
    destruct (findNearestLevel_elem v ls) as (l & -> & Hl) end.
  { by destruct palette. }
  apply list_elem_of_fmap in Hl as (z & -> & Hz). simpl.
  rewrite Forall_forall in Hrange.
  exists z. split; [done |]. apply convert_saturates. auto.
Qed.

Lemma applyErrorDiffusion_saturates_witness :
  Forall (fun b => ∃ l, l ∈ [-20; 300] ∧ b = Z.max 0 (Z.min 255 l))
         (applyErrorDiffusion (of_Z <$> [10; 240; 100; 30]) 2 2
                              (of_Z <$> [-20; 300])).
Proof.
  apply (applyErrorDiffusion_saturates
           (of_Z <$> [10; 240; 100; 30]) 2 2 [-20; 300]).
  - lia.
  - lia.
  - reflexivity.
  - discriminate.
  - repeat constructor; lia.
Defined.

(** ** The top rows of an image *)

Section TopRows.

Variables (width height height' : Z) (levels imageData : list float).
Hypothesis width_nonneg : 0 <= width.
Hypothesis height_le : 0 <= height' <= height.
Hypothesis valid_length : Z.of_nat (length imageData) = width * height.

Let cropped : list float := take (Z.to_nat (width * height')) imageData.

Lemma cropped_length : Z.of_nat (length cropped) = width * height'.
Proof. unfold cropped. rewrite length_take. nia. Qed.

Lemma cropped_lookup (k : nat) :
  Z.of_nat k < width * height' → cropped !! k = imageData !! k.
Proof. intros Hk. unfold cropped. apply lookup_take_lt. lia. Qed.

Lemma scan_prefix_top_rows (k : nat) :
  Z.of_nat k < width * height' →
  scan_prefix width height levels k imageData !! k
  = scan_prefix width height' levels k cropped !! k.
Proof.
  induction (lt_wf k) as [k _ IH]. intros Hk.
  assert (0 < width) as Hw by nia.
  pose proof (Z.div_mod (Z.of_nat k) width ltac:(lia)) as Hdm.
  pose proof (Z.mod_pos_bound (Z.of_nat k) width Hw) as Hx.
  set (y := Z.of_nat k / width) in *. set (x := Z.of_nat k mod width) in *.
  assert (0 <= y < height') as Hy by nia.
  assert (k = Z.to_nat (y * width + x)) as Hkyx by lia.
  destruct (lookup_lt_is_Some_2 imageData k ltac:(nia)) as [input Hin].
  assert (∀ i : Z, 0 <= i < Z.of_nat k →
            error_at width height levels imageData (Z.to_nat i)
            = error_at width height' levels cropped (Z.to_nat i)) as Herr.
  { intros i Hi. unfold error_at. by rewrite IH by lia. }
  rewrite Hkyx.
  rewrite (scan_gathers width height levels imageData width_nonneg
             valid_length y x Hx ltac:(lia) input)
    by (by rewrite <- Hkyx).
  rewrite (scan_gathers width height' levels cropped width_nonneg
             cropped_length y x Hx Hy input)
    by (rewrite <- Hkyx, cropped_lookup; done).
  f_equal. unfold gathered. cbv zeta.
  destruct (1 <=? x) eqn:H1x, (1 <=? y) eqn:H1y, (x + 1 <? width) eqn:Hxw;
    cbn [andb];
    rewrite ?Herr by (apply Z.leb_le in H1x || apply Z.leb_gt in H1x;
                      apply Z.leb_le in H1y || apply Z.leb_gt in H1y;
                      apply Z.ltb_lt in Hxw || apply Z.ltb_ge in Hxw; nia);
    reflexivity.
Qed.

End TopRows.

(** X9: the top rows depend on nothing below them.  On valid dimensions,
    the first [height'] rows of the output are the output of the engine on
    the first [height'] rows of the image alone. *)
Theorem applyErrorDiffusion_top_rows
    (imageData : list float) (width height height' : Z)
    (levels : list float) :
  0 <= width → 0 <= height' <= height →
  Z.of_nat (length imageData) = width * height →
  take (Z.to_nat (width * height'))
       (applyErrorDiffusion imageData width height levels)
  = applyErrorDiffusion (take (Z.to_nat (width * height')) imageData)
                        width height' levels.
Proof.
  intros Hw Hh Hlen. apply list_eq. intros j. rewrite lookup_take.
  pose proof (cropped_length width height height' imageData Hw Hh Hlen) as Hc.
  destruct (decide (j < Z.to_nat (width * height'))%nat) as [Hj | Hj].
  - rewrite !applyErrorDiffusion_lookup by (done || nia).
    by rewrite (scan_prefix_top_rows width height height') by (done || lia).
  - symmetry. apply lookup_ge_None. rewrite applyErrorDiffusion_length. lia.
Qed.

Lemma applyErrorDiffusion_top_rows_witness :
  let imageData := of_Z <$> [12; 200; 97; 251; 140; 33] in
  let levels := of_Z <$> [0; 51; 102; 153; 204; 255] in
  take (Z.to_nat (3 * 1)) (applyErrorDiffusion imageData 3 2 levels)
  = applyErrorDiffusion (take (Z.to_nat (3 * 1)) imageData) 3 1 levels.
Proof.
  apply (applyErrorDiffusion_top_rows
           (of_Z <$> [12; 200; 97; 251; 140; 33]) 3 2 1
           (of_Z <$> [0; 51; 102; 153; 204; 255])).
  - lia.
  - lia.
  - reflexivity.
Defined.
